(** * module-config: the namespaced environment-variable accessor

    A shallow embedding of [src/lib/module-config.js] (class
    [EnvironmentVariables]) and the properties of its getters.

    Modelling conventions.
    - A JavaScript string is a [string] of 8-bit characters.  Case mapping
      ([toUpperCase], [toLowerCase]) acts on the ASCII letters and leaves
      every other character alone, which is what ECMAScript does on ASCII
      text.
    - [process.env] is a finite map from strings to strings: Node stores
      only strings there, and a key that is absent reads as [undefined].
    - A Number is kept as the exact decimal numeral [m * 10^e] that its
      source text denotes (plus NaN and the infinities); rounding to a
      binary64 is not modelled.
    - A computation returns a completion (normal or thrown) together with
      the diagnostics it sent to [console.error]. *)

From Stdlib Require Import Ascii String ZArith NArith Lia.
From Equations Require Import Equations.
From Equations.Prop Require Import Logic.
From stdpp Require Import gmap strings list.

#[local] Arguments String.append !_ _ / : simpl nomatch.

(** ** Characters and strings *)

Module Str.

Definition code (c : ascii) : nat := nat_of_ascii c.

Definition is_lower (c : ascii) : bool := (97 <=? code c) && (code c <=? 122).
Definition is_upper (c : ascii) : bool := (65 <=? code c) && (code c <=? 90).
Definition is_digit (c : ascii) : bool := (48 <=? code c) && (code c <=? 57).

Definition upper_char (c : ascii) : ascii :=
  if is_lower c then ascii_of_nat (code c - 32) else c.
Definition lower_char (c : ascii) : ascii :=
  if is_upper c then ascii_of_nat (code c + 32) else c.

Fixpoint map_chars (f : ascii → ascii) (s : string) : string :=
  match s with
  | EmptyString => EmptyString
  | String c r => String (f c) (map_chars f r)
  end.

(** [String.prototype.toUpperCase] and [String.prototype.toLowerCase]. *)
Definition toUpperCase (s : string) : string := map_chars upper_char s.
Definition toLowerCase (s : string) : string := map_chars lower_char s.

Definition is_empty (s : string) : bool :=
  match s with EmptyString => true | String _ _ => false end.

(** [strip_prefix p s] is [Some r] exactly when [s = p ++ r]. *)
Fixpoint strip_prefix (p s : string) : option string :=
  match p with
  | EmptyString => Some s
  | String a p' =>
      match s with
      | EmptyString => None
      | String b s' => if Ascii.eqb a b then strip_prefix p' s' else None
      end
  end.

Fixpoint all_chars (P : ascii → bool) (s : string) : bool :=
  match s with
  | EmptyString => true
  | String c r => P c && all_chars P r
  end.

(** Joining pieces with a separator ([Array.prototype.join] on strings). *)
Fixpoint join (sep : string) (l : list string) : string :=
  match l with
  | [] => EmptyString
  | [x] => x
  | x :: r => x +:+ sep +:+ join sep r
  end.

End Str.

(** ** Values *)

(** The decimal numeral a Number was read from: [Finite neg m e] stands for
    [(-1)^neg * m * 10^e]. *)
Inductive number : Type :=
| NaN
| Infinity (negative : bool)
| Finite (negative : bool) (mantissa : N) (exp10 : Z).

Definition number_of_Z (z : Z) : number := Finite (z <? 0)%Z (Z.abs_N z) 0.

#[warnings="-register-all"]
Inductive value : Type :=
| VUndefined
| VNull
| VBool (b : bool)
| VNum (n : number)
| VStr (s : string)
| VArr (elems : list value)
| VObj (props : list (string * value)).

Definition object : Type := list (string * value).

(** [v === undefined] *)
Definition is_undefined (v : value) : bool :=
  match v with VUndefined => true | _ => false end.

(** ECMAScript ToBoolean. *)
Definition toBoolean (v : value) : bool :=
  match v with
  | VUndefined | VNull => false
  | VBool b => b
  | VNum NaN => false
  | VNum (Infinity _) => true
  | VNum (Finite _ m _) => negb (m =? 0)%N
  | VStr s => negb (Str.is_empty s)
  | VArr _ | VObj _ => true
  end.

(** [a || b] *)
Definition js_or (a b : value) : value := if toBoolean a then a else b.

(** [o.name] for a plain object: the own property, else [undefined]
    (no property of [Object.prototype] is ever asked for here). *)
Fixpoint get_property (o : object) (name : string) : value :=
  match o with
  | [] => VUndefined
  | (k, v) :: r => if String.eqb k name then v else get_property r name
  end.

(** [name in o] for a plain object. *)
Fixpoint has_property (o : object) (name : string) : bool :=
  match o with
  | [] => false
  | (k, _) :: r => String.eqb k name || has_property r name
  end.

(** ** Completions and diagnostics *)

Inductive exception : Type :=
| Error (message : string)
| TypeError (message : string)
| SyntaxError (message : string).

Inductive completion (A : Type) : Type :=
| Normal (a : A)
| Throw (e : exception).
Arguments Normal {A} a.
Arguments Throw {A} e.

(** One call of [console.error(label, err)]. *)
Record diagnostic : Type := Diagnostic { label : string; cause : exception }.

Definition Js (A : Type) : Type := completion A * list diagnostic.

Definition ret {A} (a : A) : Js A := (Normal a, []).
Definition throw {A} (e : exception) : Js A := (Throw e, []).

Definition bind {A B} (m : Js A) (k : A → Js B) : Js B :=
  match m with
  | (Normal a, out) => let '(r, out') := k a in (r, out ++ out')
  | (Throw e, out) => (Throw e, out)
  end.

(** [try { body } catch (err) { handler err }] *)
Definition try_catch {A} (body : Js A) (handler : exception → Js A) : Js A :=
  match body with
  | (Normal a, out) => (Normal a, out)
  | (Throw e, out) => let '(r, out') := handler e in (r, out ++ out')
  end.

Definition console_error (lbl : string) (err : exception) : Js unit :=
  (Normal tt, [Diagnostic lbl err]).

Notation "'let*' x ':=' m 'in' k" := (bind m (fun x => k))
  (at level 10, x pattern, k at level 200).

Definition outcome {A} (m : Js A) : completion A := fst m.
Definition throws {A} (m : Js A) : bool :=
  match outcome m with Throw _ => true | Normal _ => false end.

(** A string operation ([toString], [toLowerCase], [split], [parseFloat],
    [JSON.parse]) applied to a value: the value has to be a string.  Values
    of another kind are outside the fragment that is modelled and are
    reported as a [TypeError]; lemma [getString_shape] shows that the
    accessor never applies one of these operations to such a value. *)
Definition on_string {A} (operation : string) (v : value) (f : string → Js A) : Js A :=
  match v with
  | VStr s => f s
  | _ => throw (TypeError ("operand of " +:+ operation +:+ " is not a string"))
  end.

(** ** Built-ins of the host language used by the accessor *)

(** *** Decimal digits *)

Module Digits.
Import Str.

Definition digit_value (c : ascii) : N := N.of_nat (code c - 48).

(** Reads the run of decimal digits at the head of [s], continuing the
    numeral [acc]: the numeral, the number of digits read and the rest. *)
Fixpoint scan (acc : N) (n : nat) (s : string) : N * nat * string :=
  match s with
  | EmptyString => (acc, n, s)
  | String c r =>
      if is_digit c then scan (10 * acc + digit_value c)%N (S n) r
      else (acc, n, s)
  end.

(** An optional sign, as in [SignedInteger] and [StrDecimalLiteral]. *)
Definition read_sign (s : string) : bool * string :=
  match s with
  | EmptyString => (false, s)
  | String c r =>
      if Ascii.eqb c "-" then (true, r)
      else if Ascii.eqb c "+" then (false, r)
      else (false, s)
  end.

Definition signed (neg : bool) (v : N) : Z :=
  if neg then (- Z.of_N v)%Z else Z.of_N v.

(** [ExponentPart]: [e] or [E], an optional sign and at least one digit.
    [None] when the text does not start with a complete exponent part. *)
Definition read_exponent (s : string) : option (Z * string) :=
  match s with
  | EmptyString => None
  | String c r =>
      if Ascii.eqb c "e" || Ascii.eqb c "E" then
        let '(neg, r1) := read_sign r in
        match scan 0 0 r1 with
        | (_, O, _) => None
        | (v, S _, r2) => Some (signed neg v, r2)
        end
      else None
  end.

End Digits.

(** *** parseFloat (ECMAScript 19.2.4) *)

Module Float.
Import Str Digits.

(** White space and line terminators that are single 8-bit characters. *)
Definition is_whitespace (c : ascii) : bool :=
  ((9 <=? code c) && (code c <=? 13)) || (code c =? 32).

Fixpoint trim_start (s : string) : string :=
  match s with
  | EmptyString => s
  | String c r => if is_whitespace c then trim_start r else s
  end.

(** The longest prefix that is a [StrUnsignedDecimalLiteral] other than
    [Infinity]: digits, an optional fraction, an optional exponent part. *)
Definition read_unsigned_decimal (s : string) : option (N * Z * string) :=
  let '(i, ni, r1) := scan 0 0 s in
  let mantissa :=
    match r1 with
    | String c r =>
        if Ascii.eqb c "." then
          let '(m, nf, r2) := scan i 0 r in
          if (ni =? 0) && (nf =? 0) then None
          else Some (m, (- Z.of_nat nf)%Z, r2)
        else if ni =? 0 then None else Some (i, 0%Z, r1)
    | EmptyString => if ni =? 0 then None else Some (i, 0%Z, r1)
    end in
  match mantissa with
  | None => None
  | Some (m, e, r2) =>
      match read_exponent r2 with
      | Some (x, r3) => Some (m, (e + x)%Z, r3)
      | None => Some (m, e, r2)
      end
  end.

Definition parseFloat (s : string) : number :=
  let '(neg, r) := read_sign (trim_start s) in
  match strip_prefix "Infinity" r with
  | Some _ => Infinity neg
  | None =>
      match read_unsigned_decimal r with
      | Some (m, e, _) => Finite neg m e
      | None => NaN
      end
  end.

(** Vocabulary for stating what [parseFloat] reads. *)

(** A character that can continue a run of digits into a longer numeral. *)
Definition is_numeric_char (c : ascii) : bool :=
  is_digit c || Ascii.eqb c "." || Ascii.eqb c "e" || Ascii.eqb c "E".

(** Text that cannot continue a numeral: empty, or starting with a
    character that is not numeric. *)
Definition is_garbage (g : string) : bool :=
  match g with
  | EmptyString => true
  | String c _ => negb (is_numeric_char c)
  end.

Definition has_no_digit (s : string) : bool :=
  all_chars (fun c => negb (is_digit c)) s.

(** The text, after white space and a sign, starts with [Infinity]. *)
Definition is_infinity_literal (s : string) : bool :=
  match strip_prefix "Infinity" (snd (read_sign (trim_start s))) with
  | Some _ => true
  | None => false
  end.

(** A numeral that [parseFloat] reads to its end: white space, a sign, and
    then either [Infinity] or a decimal literal with nothing left over. *)
Definition is_numeral (p : string) : bool :=
  let r := snd (read_sign (trim_start p)) in
  match strip_prefix "Infinity" r, read_unsigned_decimal r with
  | Some _, _ => true
  | None, Some (_, _, EmptyString) => true
  | None, _ => false
  end.

End Float.

(** *** String.prototype.split with a string separator (ECMAScript 22.1.3.23) *)

Module Split.
Import Str.

(** The text before the first occurrence of [sep] in [s] and the text
    after it; [None] when [sep] does not occur. *)
Fixpoint cut (sep s : string) : option (string * string) :=
  match strip_prefix sep s with
  | Some after => Some (EmptyString, after)
  | None =>
      match s with
      | EmptyString => None
      | String c r =>
          match cut sep r with
          | Some (before, after) => Some (String c before, after)
          | None => None
          end
      end
  end.

Lemma strip_prefix_length p s r :
  strip_prefix p s = Some r → String.length s = String.length p + String.length r.
Proof.
  revert s; induction p as [|a p IH]; intros s; simpl.
  - intros [= <-]. reflexivity.
  - destruct s as [|b s]; [congruence|].
    destruct (Ascii.eqb a b); [|congruence].
    intros H. apply IH in H. simpl. lia.
Qed.

Lemma cut_length sep s before after :
  cut sep s = Some (before, after) →
  String.length s = String.length before + String.length sep + String.length after.
Proof.
  revert before; induction s as [|c s IH]; intros before; simpl.
  - destruct (strip_prefix sep "") eqn:E; [|congruence].
    intros [= <- <-]. apply strip_prefix_length in E. simpl in *. lia.
  - destruct (strip_prefix sep (String c s)) eqn:E.
    + intros [= <- <-]. apply strip_prefix_length in E. simpl in *. lia.
    + destruct (cut sep s) as [[b a]|] eqn:C; [|congruence].
      intros [= <- <-]. specialize (IH _ eq_refl). simpl. lia.
Qed.

(** The pieces between the occurrences of the non-empty separator
    [String c0 sep'], found left to right. *)
Equations? split_on (c0 : ascii) (sep' : string) (s : string) : list string
  by wf (String.length s) lt :=
  split_on c0 sep' s with inspect (cut (String c0 sep') s) := {
    | exist _ (Some (before, after)) E => before :: split_on c0 sep' after
    | exist _ None _ => [s] }.
Proof. apply cut_length in E. simpl in E. lia. Qed.

Fixpoint chars (s : string) : list string :=
  match s with
  | EmptyString => []
  | String c r => String c EmptyString :: chars r
  end.

(** [s.split(sep)]: with the empty separator the characters of [s], else
    the pieces between the occurrences of [sep]. *)
Definition split (s sep : string) : list string :=
  match sep with
  | EmptyString => chars s
  | String c0 sep' => split_on c0 sep' s
  end.

End Split.

(** *** JSON.parse (ECMAScript 25.5.1, grammar of ECMA-404) *)

Module Json.
Import Str Digits.

Definition dquote : ascii := ascii_of_nat 34.

Definition is_ws (c : ascii) : bool :=
  (code c =? 9) || (code c =? 10) || (code c =? 13) || (code c =? 32).

Fixpoint skip_ws (s : string) : string :=
  match s with
  | EmptyString => s
  | String c r => if is_ws c then skip_ws r else s
  end.

Definition hex_value (c : ascii) : option N :=
  if is_digit c then Some (N.of_nat (code c - 48))
  else if (97 <=? code c) && (code c <=? 102) then Some (N.of_nat (code c - 87))
  else if (65 <=? code c) && (code c <=? 70) then Some (N.of_nat (code c - 55))
  else None.

Definition hex4 (a b c d : ascii) : option N :=
  match hex_value a, hex_value b, hex_value c, hex_value d with
  | Some x, Some y, Some z, Some w => Some (((x * 16 + y) * 16 + z) * 16 + w)%N
  | _, _, _, _ => None
  end.

(** The code unit of a [\uXXXX] escape, written as UTF-8 bytes. *)
Definition utf8 (u : N) : string :=
  if (u <? 128)%N then String (ascii_of_N u) EmptyString
  else if (u <? 2048)%N then
    String (ascii_of_N (192 + u / 64))
      (String (ascii_of_N (128 + u mod 64)) EmptyString)
  else
    String (ascii_of_N (224 + u / 4096))
      (String (ascii_of_N (128 + (u / 64) mod 64))
         (String (ascii_of_N (128 + u mod 64)) EmptyString)).

Definition escape_char (c : ascii) : option ascii :=
  if Ascii.eqb c dquote then Some dquote
  else if Ascii.eqb c "\" then Some "\"%char
  else if Ascii.eqb c "/" then Some "/"%char
  else if Ascii.eqb c "b" then Some (ascii_of_nat 8)
  else if Ascii.eqb c "f" then Some (ascii_of_nat 12)
  else if Ascii.eqb c "n" then Some (ascii_of_nat 10)
  else if Ascii.eqb c "r" then Some (ascii_of_nat 13)
  else if Ascii.eqb c "t" then Some (ascii_of_nat 9)
  else None.

(** The characters of a string literal, read from just after its opening
    quote: the string it denotes and the text after the closing quote. *)
Fixpoint read_string (s : string) : option (string * string) :=
  match s with
  | EmptyString => None
  | String c r =>
      if Ascii.eqb c dquote then Some (EmptyString, r)
      else if Ascii.eqb c "\" then
        match r with
        | EmptyString => None
        | String e r1 =>
            if Ascii.eqb e "u" then
              match r1 with
              | String h1 (String h2 (String h3 (String h4 r2))) =>
                  match hex4 h1 h2 h3 h4, read_string r2 with
                  | Some u, Some (str, rest) => Some (utf8 u +:+ str, rest)
                  | _, _ => None
                  end
              | _ => None
              end
            else
              match escape_char e, read_string r1 with
              | Some x, Some (str, rest) => Some (String x str, rest)
              | _, _ => None
              end
        end
      else if code c <? 32 then None
      else
        match read_string r with
        | Some (str, rest) => Some (String c str, rest)
        | None => None
        end
  end.

(** A JSON number: an optional minus sign; then either the digit 0 or a
    run of digits that does not start with 0; then optionally a point and
    at least one digit; then optionally an exponent part. *)
Definition read_number (s : string) : option (number * string) :=
  let '(neg, r) :=
    match s with
    | String c r => if Ascii.eqb c "-" then (true, r) else (false, s)
    | EmptyString => (false, s)
    end in
  match r with
  | EmptyString => None
  | String d r0 =>
      if negb (is_digit d) then None
      else
        let '(i, r1) :=
          if Ascii.eqb d "0" then (0%N, r0)
          else let '(v, _, r') := scan 0 0 r in (v, r') in
        let fraction :=
          match r1 with
          | EmptyString => Some (i, 0%Z, r1)
          | String c r2 =>
              if Ascii.eqb c "." then
                match scan i 0 r2 with
                | (_, O, _) => None
                | (m, S k, r3) => Some (m, (- Z.of_nat (S k))%Z, r3)
                end
              else Some (i, 0%Z, r1)
          end in
        match fraction with
        | None => None
        | Some (m, e, r3) =>
            match r3 with
            | EmptyString => Some (Finite neg m e, r3)
            | String c _ =>
                if Ascii.eqb c "e" || Ascii.eqb c "E" then
                  match read_exponent r3 with
                  | Some (x, r4) => Some (Finite neg m (e + x)%Z, r4)
                  | None => None
                  end
                else Some (Finite neg m e, r3)
            end
        end
  end.

(** Defining a property on an object under construction: a repeated key
    keeps its place and takes the later value. *)
Fixpoint obj_set (o : object) (k : string) (v : value) : object :=
  match o with
  | [] => [(k, v)]
  | (k', v') :: r =>
      if String.eqb k' k then (k', v) :: r else (k', v') :: obj_set r k v
  end.

Inductive presult : Type :=
| OutOfFuel
| Invalid
| Parsed (v : value) (rest : string).

(** Recursive descent; every recursive call spends one unit of [fuel]. *)
Fixpoint parse_value (fuel : nat) (s : string) : presult :=
  match fuel with
  | O => OutOfFuel
  | S fuel' =>
      match skip_ws s with
      | EmptyString => Invalid
      | String c r =>
          if Ascii.eqb c "{" then
            match skip_ws r with
            | EmptyString => Invalid
            | String c' r' =>
                if Ascii.eqb c' "}" then Parsed (VObj []) r'
                else parse_members fuel' [] r
            end
          else if Ascii.eqb c "[" then
            match skip_ws r with
            | EmptyString => Invalid
            | String c' r' =>
                if Ascii.eqb c' "]" then Parsed (VArr []) r'
                else parse_elements fuel' [] r
            end
          else if Ascii.eqb c dquote then
            match read_string r with
            | Some (str, rest) => Parsed (VStr str) rest
            | None => Invalid
            end
          else
            match strip_prefix "true" (String c r),
                  strip_prefix "false" (String c r),
                  strip_prefix "null" (String c r) with
            | Some rest, _, _ => Parsed (VBool true) rest
            | None, Some rest, _ => Parsed (VBool false) rest
            | None, None, Some rest => Parsed VNull rest
            | None, None, None =>
                match read_number (String c r) with
                | Some (n, rest) => Parsed (VNum n) rest
                | None => Invalid
                end
            end
      end
  end
with parse_elements (fuel : nat) (acc : list value) (s : string) : presult :=
  match fuel with
  | O => OutOfFuel
  | S fuel' =>
      match parse_value fuel' s with
      | OutOfFuel => OutOfFuel
      | Invalid => Invalid
      | Parsed v r =>
          match skip_ws r with
          | EmptyString => Invalid
          | String c r' =>
              if Ascii.eqb c "," then parse_elements fuel' (acc ++ [v]) r'
              else if Ascii.eqb c "]" then Parsed (VArr (acc ++ [v])) r'
              else Invalid
          end
      end
  end
with parse_members (fuel : nat) (acc : object) (s : string) : presult :=
  match fuel with
  | O => OutOfFuel
  | S fuel' =>
      match skip_ws s with
      | EmptyString => Invalid
      | String c r =>
          if negb (Ascii.eqb c dquote) then Invalid
          else
            match read_string r with
            | None => Invalid
            | Some (k, r1) =>
                match skip_ws r1 with
                | EmptyString => Invalid
                | String c1 r2 =>
                    if negb (Ascii.eqb c1 ":") then Invalid
                    else
                      match parse_value fuel' r2 with
                      | OutOfFuel => OutOfFuel
                      | Invalid => Invalid
                      | Parsed v r3 =>
                          match skip_ws r3 with
                          | EmptyString => Invalid
                          | String c3 r4 =>
                              if Ascii.eqb c3 "," then
                                parse_members fuel' (obj_set acc k v) r4
                              else if Ascii.eqb c3 "}" then
                                Parsed (VObj (obj_set acc k v)) r4
                              else Invalid
                          end
                      end
                end
            end
      end
  end.

(** Fuel that never runs out on [text] (lemma [parse_value_fuel]). *)
Definition fuel_for (text : string) : nat := 2 * String.length text + 1.

(** The whole text has to be one value, with white space around it at most. *)
Definition parse_with (fuel : nat) (text : string) : completion value :=
  match parse_value fuel text with
  | Parsed v rest =>
      if is_empty (skip_ws rest) then Normal v
      else Throw (SyntaxError "Unexpected non-whitespace character after JSON")
  | Invalid | OutOfFuel => Throw (SyntaxError "Unexpected token in JSON")
  end.

(** [JSON.parse(text)]: the value of the whole text, or a [SyntaxError]. *)
Definition parse (text : string) : completion value :=
  parse_with (fuel_for text) text.

End Json.

(** ** The accessor: class [EnvironmentVariables] *)

Record EnvironmentVariables : Type := { env : string }.

(** [a || b] where [a] is a string or [undefined] and [b] is a string. *)
Definition or_string (a : option string) (b : string) : string :=
  match a with
  | Some s => if Str.is_empty s then b else s
  | None => b
  end.

(** [process.env[name]] *)
Definition process_env_get (process_env : gmap string string) (name : string) : value :=
  match process_env !! name with
  | Some s => VStr s
  | None => VUndefined
  end.

(** [constructor(env)]: [this.env = env || process.env.NODE_ENV || "development"] *)
Definition constructor (process_env : gmap string string) (env : option string)
  : EnvironmentVariables :=
  {| env := or_string env (or_string (process_env !! "NODE_ENV") "development") |}.

(** [module.exports = new EnvironmentVariables()] *)
Definition module_exports (process_env : gmap string string) : EnvironmentVariables :=
  constructor process_env None.

Section Accessor.

Context (this : EnvironmentVariables) (process_env : gmap string string).

(** [const envKey = `${this.env.toUpperCase()}_${key.toUpperCase()}`] *)
Definition envKey (key : string) : string :=
  Str.toUpperCase (env this) +:+ "_" +:+ Str.toUpperCase key.

Definition get (key : string) (defaultValue : value) : Js value :=
  let envKey := envKey key in
  try_catch
    (ret (js_or (process_env_get process_env envKey) defaultValue))
    (fun err =>
       let* _ := console_error ("Error getting " +:+ key +:+ ":") err in
       ret defaultValue).

Definition getString (key : string) (defaultValue : value) : Js value :=
  let* value := get key VUndefined in
  if negb (is_undefined value)
  then on_string "toString" value (fun s => ret (VStr s))
  else ret defaultValue.

Definition getBoolean (key : string) (defaultValue : value) : Js value :=
  let* value := getString key VUndefined in
  if negb (is_undefined value)
  then on_string "toLowerCase" value
         (fun s => ret (VBool (String.eqb (Str.toLowerCase s) "true")))
  else ret defaultValue.

Definition getNumber (key : string) (defaultValue : value) : Js value :=
  let* value := getString key VUndefined in
  if negb (is_undefined value)
  then on_string "parseFloat" value (fun s => ret (VNum (Float.parseFloat s)))
  else ret defaultValue.

(** [separator = None] is the call that leaves the separator out (or
    passes [undefined]), for which the parameter default [","] applies. *)
Definition getArray (key : string) (separator : option string) (defaultValue : value)
  : Js value :=
  let separator := default "," separator in
  let* value := getString key VUndefined in
  if negb (is_undefined value)
  then on_string "split" value
         (fun s => ret (VArr (VStr <$> Split.split s separator)))
  else ret defaultValue.

Definition getObject (key : string) (defaultValue : value) : Js value :=
  let* value := getString key VUndefined in
  try_catch
    (if negb (is_undefined value)
     then on_string "JSON.parse" value (fun s => (Json.parse s, []))
     else ret defaultValue)
    (fun err =>
       let* _ := console_error ("Error parsing JSON for " +:+ key +:+ ":") err in
       ret defaultValue).

(** [options = None] is the call that leaves the options out, for which
    the parameter default [{ throwError: true }] applies. *)
Definition getOrThrow (propertyPath : string) (options : option object) : Js value :=
  let options := default [("throwError", VBool true)] options in
  let* value := get propertyPath VUndefined in
  if is_undefined value && toBoolean (get_property options "throwError")
  then throw (Error ("Environment variable '" +:+ propertyPath +:+ "' not found."))
  else ret value.

(** The value the accessor finds for [key]: the string stored under the
    namespaced key, provided it is not empty. *)
Definition found (key : string) : option string :=
  match process_env !! envKey key with
  | Some s => if Str.is_empty s then None else Some s
  | None => None
  end.

End Accessor.

(** The message of the error that [getOrThrow] raises for [key]. *)
Definition not_found_message (key : string) : string :=
  "Environment variable '" +:+ key +:+ "' not found.".

(** What a call sent to [console.error]. *)
Definition reports {A} (m : Js A) : list diagnostic := snd m.

(** The results of the seven operations for one key, side by side. *)
Definition readings (this : EnvironmentVariables) (process_env : gmap string string)
    (key : string) (separator : option string) (defaultValue : value)
    (options : option object)
  : Js value * Js value * Js value * Js value * Js value * Js value * Js value :=
  (get this process_env key defaultValue,
   getString this process_env key defaultValue,
   getBoolean this process_env key defaultValue,
   getNumber this process_env key defaultValue,
   getArray this process_env key separator defaultValue,
   getObject this process_env key defaultValue,
   getOrThrow this process_env key options).

(** ** Calls with arguments of any kind

    The key is documented as a string and the options as an object, but the
    language checks neither, so a caller can pass any value. *)

(** [key.toUpperCase()] on line 37.  It is evaluated before the [try] of
    [get] is entered, and every other operation starts by calling [get]
    (lines 53, 64, 75, 87, 98 and 116, none of them inside a [try]).  A key
    that is not a string has no such method, so the call ends there with a
    [TypeError]; with a string key the operation runs as modelled above. *)
Definition with_key {A} (key : value) (operation : string → Js A) : Js A :=
  match key with
  | VStr k => operation k
  | VUndefined =>
      throw (TypeError "Cannot read properties of undefined (reading 'toUpperCase')")
  | VNull =>
      throw (TypeError "Cannot read properties of null (reading 'toUpperCase')")
  | VBool _ | VNum _ | VArr _ | VObj _ =>
      throw (TypeError "key.toUpperCase is not a function")
  end.

(** [options.throwError] on line 117, after the parameter default
    [{ throwError: true }] has replaced an [undefined] argument.  Reading a
    property of [null] is a [TypeError]; an object gives its own property
    or [undefined]; a boolean, a number, a string and an array have no
    property of that name. *)
Definition throwError_of (options : value) : Js value :=
  match options with
  | VUndefined => ret (VBool true)
  | VNull => throw (TypeError "Cannot read properties of null (reading 'throwError')")
  | VObj o => ret (get_property o "throwError")
  | VBool _ | VNum _ | VStr _ | VArr _ => ret VUndefined
  end.

(** The options carry a number as [throwError].  Numbers are kept as the
    numerals they were written with, so whether a very small one is zero,
    and with it falsy, is not modelled. *)
Definition flag_is_number (options : value) : bool :=
  match options with
  | VObj o => match get_property o "throwError" with VNum _ => true | _ => false end
  | _ => false
  end.

Section AnyArgument.

Context (this : EnvironmentVariables) (process_env : gmap string string).

(** Lines 115 to 121 with the options as they were passed: [&&] reads
    [options.throwError] only when the value is [undefined]. *)
Definition getOrThrow_with (propertyPath : string) (options : value) : Js value :=
  let* value := get this process_env propertyPath VUndefined in
  if is_undefined value then
    let* flag := throwError_of options in
    if toBoolean flag
    then throw (Error ("Environment variable '" +:+ propertyPath +:+ "' not found."))
    else ret value
  else ret value.

Definition get_any (key : value) (defaultValue : value) : Js value :=
  with_key key (fun k => get this process_env k defaultValue).

Definition getString_any (key : value) (defaultValue : value) : Js value :=
  with_key key (fun k => getString this process_env k defaultValue).

Definition getBoolean_any (key : value) (defaultValue : value) : Js value :=
  with_key key (fun k => getBoolean this process_env k defaultValue).

Definition getNumber_any (key : value) (defaultValue : value) : Js value :=
  with_key key (fun k => getNumber this process_env k defaultValue).

Definition getArray_any (key : value) (separator : option string) (defaultValue : value)
  : Js value :=
  with_key key (fun k => getArray this process_env k separator defaultValue).

Definition getObject_any (key : value) (defaultValue : value) : Js value :=
  with_key key (fun k => getObject this process_env k defaultValue).

Definition getOrThrow_any (propertyPath : value) (options : value) : Js value :=
  with_key propertyPath (fun k => getOrThrow_with k options).

End AnyArgument.

(** A decimal integer as JSON writes it: digits only, and no leading zero
    other than the numeral 0 itself. *)
Definition is_plain_integer (s : string) : bool :=
  match s with
  | EmptyString => false
  | String d ds =>
      Str.all_chars Str.is_digit s && (negb (Ascii.eqb d "0") || Str.is_empty ds)
  end.

(** ** The loader: the statements run when the module is loaded *)

(** What the module writes while it loads: a [console.log] line with its
    fields, or a [console.error] report. *)
Inductive output : Type :=
| Log (fields : list string)
| Report (d : diagnostic).

(** The variable table after loading and what was written meanwhile. *)
Record loaded : Type := { loaded_env : gmap string string; written : list output }.

Section Loader.

(** [dotenv.config({ path })] belongs to the dotenv package: from the path
    and the variable table it gives a completion and the table it leaves
    behind.  [cwd] is what [process.cwd()] returns. *)
Context (dotenv_config : string → gmap string string → completion unit * gmap string string).

(** [`${process.cwd()}/.env.${process.env.NODE_ENV || "development"}`] *)
Definition envFile (cwd : string) (process_env : gmap string string) : string :=
  cwd +:+ "/.env." +:+ or_string (process_env !! "NODE_ENV") "development".

(** Lines 3 to 16: the announcement, then [dotenv.config] inside [try]. *)
Definition load (cwd : string) (process_env : gmap string string) : loaded :=
  let announcement := Log ["========>"; envFile cwd process_env] in
  let envFile := envFile cwd process_env in
  match dotenv_config envFile process_env with
  | (Normal _, process_env') =>
      {| loaded_env := process_env'; written := [announcement] |}
  | (Throw err, process_env') =>
      {| loaded_env := process_env';
         written := [announcement;
                     Report (Diagnostic "Error loading environment variables:" err)] |}
  end.

(** The module from its first line to its last: load, then
    [module.exports = new EnvironmentVariables()]. *)
Definition module_init (cwd : string) (process_env : gmap string string)
  : loaded * EnvironmentVariables :=
  let l := load cwd process_env in
  (l, module_exports (loaded_env l)).

End Loader.

(** Modelled from the spec: [dotenv.config], which is not under src/.  The
    settings file at [path] holds [KEY=VALUE] lines, given here as the table
    [files] from paths to their assignments; each assignment is added to the
    variable table without overwriting a variable that is already present,
    and a missing file is a failure. *)
Definition dotenv_from (files : gmap string (gmap string string))
    (path : string) (process_env : gmap string string)
  : completion unit * gmap string string :=
  match files !! path with
  | Some assignments => (Normal tt, process_env ∪ assignments)
  | None => (Throw (Error ("ENOENT: no such file or directory, open '" +:+ path +:+ "'")),
             process_env)
  end.

(** ** Properties *)

(** *** The lookup performed by every getter *)

Section Lookup.

Context (this : EnvironmentVariables) (process_env : gmap string string).

Lemma found_not_empty key s :
  found this process_env key = Some s → s ≠ EmptyString.
Proof.
  unfold found. destruct (process_env !! envKey this key) as [[|c r]|]; simpl; congruence.
Qed.

Lemma found_lookup key :
  found this process_env key =
    match process_env !! envKey this key with
    | Some (String c s) => Some (String c s)
    | Some EmptyString | None => None
    end.
Proof.
  unfold found. destruct (process_env !! envKey this key) as [[|c r]|]; reflexivity.
Qed.

Lemma get_eq key d :
  get this process_env key d =
    ret (match found this process_env key with Some s => VStr s | None => d end).
Proof.
  unfold get, found, process_env_get, try_catch, ret, js_or.
  destruct (process_env !! envKey this key) as [[|c r]|]; reflexivity.
Qed.

Lemma getString_eq key d :
  getString this process_env key d =
    ret (match found this process_env key with Some s => VStr s | None => d end).
Proof.
  unfold getString. rewrite get_eq.
  destruct (found this process_env key); reflexivity.
Qed.

(** What [this.get(key)] and [this.getString(key)] hand to the typed
    getters is a string or [undefined], so [on_string] never raises. *)
Lemma getString_shape key :
  (∃ s, getString this process_env key VUndefined = ret (VStr s))
  ∨ getString this process_env key VUndefined = ret VUndefined.
Proof.
  rewrite getString_eq. destruct (found this process_env key); eauto.
Qed.

Lemma getBoolean_eq key d :
  getBoolean this process_env key d =
    ret (match found this process_env key with
         | Some s => VBool (String.eqb (Str.toLowerCase s) "true")
         | None => d
         end).
Proof.
  unfold getBoolean. rewrite getString_eq.
  destruct (found this process_env key); reflexivity.
Qed.

Lemma getNumber_eq key d :
  getNumber this process_env key d =
    ret (match found this process_env key with
         | Some s => VNum (Float.parseFloat s)
         | None => d
         end).
Proof.
  unfold getNumber. rewrite getString_eq.
  destruct (found this process_env key); reflexivity.
Qed.

Lemma getArray_eq key separator d :
  getArray this process_env key separator d =
    ret (match found this process_env key with
         | Some s => VArr (VStr <$> Split.split s (default "," separator))
         | None => d
         end).
Proof.
  unfold getArray. rewrite getString_eq.
  destruct (found this process_env key); reflexivity.
Qed.

Lemma getObject_eq key d :
  getObject this process_env key d =
    match found this process_env key with
    | Some s =>
        match Json.parse s with
        | Normal v => ret v
        | Throw e => (Normal d, [Diagnostic ("Error parsing JSON for " +:+ key +:+ ":") e])
        end
    | None => ret d
    end.
Proof.
  unfold getObject. rewrite getString_eq.
  destruct (found this process_env key) as [s|]; [|reflexivity].
  simpl. destruct (Json.parse s); reflexivity.
Qed.

Lemma getOrThrow_eq key options :
  getOrThrow this process_env key options =
    match found this process_env key with
    | Some s => ret (VStr s)
    | None =>
        if toBoolean (get_property (default [("throwError", VBool true)] options) "throwError")
        then throw (Error ("Environment variable '" +:+ key +:+ "' not found."))
        else ret VUndefined
    end.
Proof.
  unfold getOrThrow. rewrite get_eq.
  destruct (found this process_env key) as [s|]; simpl; [reflexivity|].
  destruct (toBoolean _); reflexivity.
Qed.

End Lookup.

Lemma found_insert this (process_env : gmap string string) key s :
  found this (<[envKey this key := s]> process_env) key =
    if Str.is_empty s then None else Some s.
Proof. unfold found. rewrite lookup_insert_eq. reflexivity. Qed.

Lemma found_delete this (process_env : gmap string string) key :
  found this (delete (envKey this key) process_env) key = None.
Proof. unfold found. rewrite lookup_delete_eq. reflexivity. Qed.

Lemma has_property_get o name :
  has_property o name = false → get_property o name = VUndefined.
Proof.
  induction o as [|[k v] o IH]; simpl; [reflexivity|].
  destruct (String.eqb k name); simpl; [discriminate|exact IH].
Qed.

(** *** Case mapping and the namespaced key *)

Module StrFacts.
Import Str.

Ltac each_char c := destruct c as [[] [] [] [] [] [] [] []].

Lemma upper_char_not_lower c : is_lower (upper_char c) = false.
Proof. each_char c; reflexivity. Qed.

Lemma upper_char_shift c : is_lower c = true → code (upper_char c) + 32 = code c.
Proof. each_char c; first [discriminate | reflexivity]. Qed.

Lemma lower_char_shift c : is_upper c = true → code (lower_char c) = code c + 32.
Proof. each_char c; first [discriminate | reflexivity]. Qed.

Lemma toUpperCase_idempotent s : toUpperCase (toUpperCase s) = toUpperCase s.
Proof.
  unfold toUpperCase. induction s as [|c s IH]; simpl; [reflexivity|].
  rewrite IH. f_equal. unfold upper_char at 1.
  rewrite upper_char_not_lower. reflexivity.
Qed.

Lemma all_chars_app P s t :
  all_chars P (s +:+ t) = all_chars P s && all_chars P t.
Proof. induction s as [|c s IH]; simpl; [reflexivity|]. rewrite IH. apply andb_assoc. Qed.

Lemma toUpperCase_no_lower s :
  all_chars (fun c => negb (is_lower c)) (toUpperCase s) = true.
Proof.
  induction s as [|c s IH]; simpl; [reflexivity|].
  rewrite upper_char_not_lower. exact IH.
Qed.

Lemma strip_prefix_sound p s r : strip_prefix p s = Some r → s = p +:+ r.
Proof.
  revert s; induction p as [|a p IH]; intros s; simpl.
  - congruence.
  - destruct s as [|b s]; [discriminate|].
    destruct (Ascii.eqb_spec a b) as [->|]; [|discriminate].
    intros H. f_equal. apply IH, H.
Qed.

Lemma strip_prefix_app p s r t :
  strip_prefix p s = Some r → strip_prefix p (s +:+ t) = Some (r +:+ t).
Proof.
  revert s; induction p as [|a p IH]; intros s; simpl.
  - congruence.
  - destruct s as [|b s]; [discriminate|]. simpl.
    destruct (Ascii.eqb a b); [apply IH|discriminate].
Qed.

End StrFacts.

(** No key the accessor asks for contains a lower-case letter, so none can
    name a property that [process.env] inherits ([constructor], [toString],
    [__proto__], ...): reading the table as a plain map is sound. *)
Lemma envKey_no_lower this key :
  Str.all_chars (fun c => negb (Str.is_lower c)) (envKey this key) = true.
Proof.
  unfold envKey. rewrite !StrFacts.all_chars_app, !StrFacts.toUpperCase_no_lower.
  reflexivity.
Qed.

(** *** Splitting *)

Module SplitFacts.
Import Str Split StrFacts.

Lemma cut_sound sep s before after :
  cut sep s = Some (before, after) → s = before +:+ sep +:+ after.
Proof.
  revert before; induction s as [|c s IH]; intros before; simpl.
  - destruct (strip_prefix sep EmptyString) eqn:E; [|discriminate].
    intros [= <- <-]. apply strip_prefix_sound in E. exact E.
  - destruct (strip_prefix sep (String c s)) eqn:E.
    + intros [= <- <-]. apply strip_prefix_sound in E. exact E.
    + destruct (cut sep s) as [[b a]|]; [|discriminate].
      intros [= <- <-]. simpl. f_equal. apply IH. reflexivity.
Qed.

(** The piece in front of the first occurrence holds no occurrence. *)
Lemma cut_before_free c0 sep' s before after :
  cut (String c0 sep') s = Some (before, after) →
  cut (String c0 sep') before = None.
Proof.
  revert before; induction s as [|c s IH]; intros before.
  - simpl. discriminate.
  - intros H. pose proof (cut_sound _ _ _ _ H) as Hs. revert H.
    cbn [cut]. destruct (strip_prefix (String c0 sep') (String c s)) eqn:E.
    + intros [= <- <-]. reflexivity.
    + destruct (cut (String c0 sep') s) as [[b a]|] eqn:C; [|discriminate].
      intros [= <- <-]. cbn [cut].
      destruct (strip_prefix (String c0 sep') (String c b)) eqn:E'.
      * apply (strip_prefix_app _ _ _ (String c0 sep' +:+ a)) in E'.
        rewrite <- Hs in E'. congruence.
      * rewrite (IH b eq_refl). reflexivity.
Qed.

Lemma split_on_not_nil c0 sep' s : split_on c0 sep' s ≠ [].
Proof. funelim (split_on c0 sep' s); discriminate. Qed.

Lemma join_cons sep x l : l ≠ [] → join sep (x :: l) = x +:+ sep +:+ join sep l.
Proof. destruct l; [congruence|reflexivity]. Qed.

Lemma split_on_join c0 sep' s :
  join (String c0 sep') (split_on c0 sep' s) = s.
Proof.
  funelim (split_on c0 sep' s).
  - rewrite join_cons by apply split_on_not_nil.
    match goal with IH : join _ _ = _ |- _ => rewrite IH end.
    symmetry. apply cut_sound. assumption.
  - reflexivity.
Qed.

Lemma split_on_pieces_free c0 sep' s :
  Forall (fun piece => cut (String c0 sep') piece = None) (split_on c0 sep' s).
Proof.
  funelim (split_on c0 sep' s).
  - constructor; [eapply cut_before_free; eassumption | assumption].
  - constructor; [assumption | constructor].
Qed.

Lemma chars_join s : join EmptyString (chars s) = s.
Proof.
  induction s as [|c s IH]; [reflexivity|].
  cbn [chars]. destruct s as [|c' s']; [reflexivity|].
  rewrite join_cons by discriminate. rewrite IH. reflexivity.
Qed.

(** Joining the pieces with the separator gives the text back. *)
Lemma split_join s sep : join sep (split s sep) = s.
Proof. destruct sep; [apply chars_join | apply split_on_join]. Qed.

Lemma split_not_nil s sep : s ≠ EmptyString → split s sep ≠ [].
Proof.
  intros Hs. destruct sep; simpl.
  - destruct s; [congruence|discriminate].
  - apply split_on_not_nil.
Qed.

Lemma split_no_separator s sep :
  cut sep s = None → sep ≠ EmptyString → split s sep = [s].
Proof.
  intros H Hsep. destruct sep as [|c0 sep']; [congruence|].
  simpl. funelim (split_on c0 sep' s); congruence.
Qed.

End SplitFacts.

(** *** parseFloat *)

Module FloatFacts.
Import Str Digits Float StrFacts.

Lemma scan_no_digit acc n s : has_no_digit s = true → scan acc n s = (acc, n, s).
Proof.
  destruct s as [|c s]; [reflexivity|]. unfold has_no_digit. simpl.
  destruct (is_digit c); [discriminate|reflexivity].
Qed.

Lemma scan_garbage acc n g : is_garbage g = true → scan acc n g = (acc, n, g).
Proof.
  destruct g as [|c g]; [reflexivity|]. unfold is_garbage, is_numeric_char. simpl.
  destruct (is_digit c); [discriminate|reflexivity].
Qed.

Lemma read_exponent_garbage g : is_garbage g = true → read_exponent g = None.
Proof.
  destruct g as [|c g]; [reflexivity|]. unfold is_garbage, is_numeric_char. simpl.
  destruct (is_digit c), (Ascii.eqb c "."), (Ascii.eqb c "e"), (Ascii.eqb c "E");
    simpl; first [discriminate | reflexivity].
Qed.

Lemma has_no_digit_trim s : has_no_digit s = true → has_no_digit (trim_start s) = true.
Proof.
  unfold has_no_digit. induction s as [|c s IH]; simpl; [reflexivity|].
  intros H. destruct (is_whitespace c); [|exact H].
  apply andb_prop in H as [_ H]. apply IH, H.
Qed.

Lemma has_no_digit_sign s : has_no_digit s = true → has_no_digit (snd (read_sign s)) = true.
Proof.
  unfold has_no_digit. destruct s as [|c s]; simpl; [reflexivity|].
  intros H. destruct (Ascii.eqb c "-"), (Ascii.eqb c "+"); simpl; try exact H;
    apply andb_prop in H as [_ H]; exact H.
Qed.

Lemma read_unsigned_decimal_no_digit r :
  has_no_digit r = true → read_unsigned_decimal r = None.
Proof.
  intros H. unfold read_unsigned_decimal. rewrite scan_no_digit by assumption.
  destruct r as [|c r]; [reflexivity|].
  destruct (Ascii.eqb c "."); [|reflexivity].
  unfold has_no_digit in H. simpl in H. apply andb_prop in H as [_ H].
  rewrite scan_no_digit by assumption. reflexivity.
Qed.

Lemma scan_app s g : ∀ acc n v k r,
  scan acc n s = (v, k, r) → is_garbage g = true →
  scan acc n (s +:+ g) = (v, k, r +:+ g).
Proof.
  induction s as [|c s IH]; intros acc n v k r; simpl.
  - intros [= <- <- <-] Hg. apply scan_garbage, Hg.
  - destruct (is_digit c); [apply IH|].
    intros [= <- <- <-] _. reflexivity.
Qed.

Lemma trim_start_app p g :
  trim_start p ≠ EmptyString → trim_start (p +:+ g) = trim_start p +:+ g.
Proof.
  induction p as [|c p IH]; simpl; [congruence|].
  destruct (is_whitespace c); [exact IH|reflexivity].
Qed.

Lemma read_sign_app t g :
  t ≠ EmptyString →
  read_sign (t +:+ g) = (fst (read_sign t), snd (read_sign t) +:+ g).
Proof.
  destruct t as [|c t]; [congruence|]. intros _. simpl.
  destruct (Ascii.eqb c "-"), (Ascii.eqb c "+"); reflexivity.
Qed.

Lemma read_sign_nonempty t :
  snd (read_sign t) ≠ EmptyString → t ≠ EmptyString.
Proof. destruct t; simpl; congruence. Qed.

Lemma read_exponent_app s g x r :
  read_exponent s = Some (x, r) → is_garbage g = true →
  read_exponent (s +:+ g) = Some (x, r +:+ g).
Proof.
  destruct s as [|c s]; simpl; [discriminate|].
  destruct (Ascii.eqb c "e" || Ascii.eqb c "E"); [|discriminate].
  destruct (read_sign s) as [neg r1] eqn:Es.
  destruct (scan 0 0 r1) as [[v [|k]] r2] eqn:E; [discriminate|].
  intros [= <- <-] Hg.
  assert (s ≠ EmptyString) as Hs.
  { apply read_sign_nonempty. rewrite Es. simpl.
    destruct r1; [discriminate|congruence]. }
  rewrite (read_sign_app s g Hs), Es. simpl.
  rewrite (scan_app _ _ _ _ _ _ _ E Hg). reflexivity.
Qed.

Lemma read_unsigned_decimal_head r g x :
  read_unsigned_decimal r = Some x → strip_prefix "Infinity" (r +:+ g) = None.
Proof.
  destruct r as [|c r]; [discriminate|].
  cbn [String.append strip_prefix].
  destruct (Ascii.eqb_spec "I" c) as [<-|]; [discriminate|reflexivity].
Qed.

Lemma read_unsigned_decimal_app r g m e :
  read_unsigned_decimal r = Some (m, e, EmptyString) → is_garbage g = true →
  read_unsigned_decimal (r +:+ g) = Some (m, e, g).
Proof.
  unfold read_unsigned_decimal. intros H Hg.
  destruct (scan 0 0 r) as [[i ni] r1] eqn:E1.
  rewrite (scan_app _ _ _ _ _ _ _ E1 Hg).
  pose proof (read_exponent_garbage g Hg) as Hx.
  destruct r1 as [|c r2].
  - (* the digits run to the end of [r] *)
    simpl in H. destruct (ni =? 0) eqn:Eni; [discriminate|].
    injection H as <- <-.
    change (EmptyString +:+ g) with g.
    destruct g as [|c g']; [reflexivity|].
    assert (Ascii.eqb c "." = false) as ->.
    { unfold is_garbage, is_numeric_char in Hg.
      destruct (Ascii.eqb c "."); [|reflexivity].
      rewrite orb_true_r in Hg. discriminate. }
    rewrite Hx. reflexivity.
  - cbn [String.append].
    destruct (Ascii.eqb c ".").
    + destruct (scan i 0 r2) as [[m' nf] r3] eqn:E2.
      rewrite (scan_app _ _ _ _ _ _ _ E2 Hg).
      destruct ((ni =? 0) && (nf =? 0)); [discriminate|].
      destruct (read_exponent r3) as [[x r4]|] eqn:E3.
      * injection H as <- <- ->.
        rewrite (read_exponent_app _ _ _ _ E3 Hg). reflexivity.
      * injection H as <- <- ->. simpl. rewrite Hx. reflexivity.
    + destruct (ni =? 0); [discriminate|].
      destruct (read_exponent (String c r2)) as [[x r4]|] eqn:E3.
      * injection H as <- <- ->.
        change (String c (r2 +:+ g)) with (String c r2 +:+ g).
        rewrite (read_exponent_app _ _ _ _ E3 Hg). reflexivity.
      * discriminate.
Qed.

(** Text that cannot continue a numeral is ignored after any numeral. *)
Lemma parseFloat_numeral_garbage p g :
  is_numeral p = true → is_garbage g = true → parseFloat (p +:+ g) = parseFloat p.
Proof.
  unfold is_numeral, parseFloat. intros Hp Hg.
  assert (trim_start p ≠ EmptyString) as Ht.
  { intros Ht. rewrite Ht in Hp. discriminate. }
  rewrite (trim_start_app p g Ht).
  assert (snd (read_sign (trim_start p)) ≠ EmptyString) as Hr.
  { intros Hr. rewrite Hr in Hp. discriminate. }
  rewrite (read_sign_app _ g (read_sign_nonempty _ Hr)).
  destruct (read_sign (trim_start p)) as [neg r]. cbn [fst snd] in *.
  destruct (strip_prefix "Infinity" r) as [rest|] eqn:EI.
  - rewrite (strip_prefix_app _ _ _ g EI). reflexivity.
  - destruct (read_unsigned_decimal r) as [[[m e] [|c r']]|] eqn:ER; try discriminate.
    rewrite (read_unsigned_decimal_head r g _ ER).
    rewrite (read_unsigned_decimal_app r g m e ER Hg). reflexivity.
Qed.

(** Text without any digit that is not an [Infinity] literal reads as NaN. *)
Lemma parseFloat_non_numeric s :
  has_no_digit s = true → is_infinity_literal s = false → parseFloat s = NaN.
Proof.
  intros Hs Hinf. unfold parseFloat. unfold is_infinity_literal in Hinf.
  pose proof (has_no_digit_sign _ (has_no_digit_trim _ Hs)) as Hr.
  destruct (read_sign (trim_start s)) as [neg r]. cbn [snd] in Hinf, Hr.
  destruct (strip_prefix "Infinity" r); [discriminate|].
  rewrite read_unsigned_decimal_no_digit by assumption. reflexivity.
Qed.

End FloatFacts.

(** *** JSON.parse: the parser consumes its input and never runs out of fuel *)

Module JsonFacts.
Import Str Digits Json.

Lemma skip_ws_length s : String.length (skip_ws s) ≤ String.length s.
Proof. induction s as [|c s IH]; simpl; [lia|]. destruct (is_ws c); simpl; lia. Qed.

Lemma skip_ws_cons s c r : skip_ws s = String c r → String.length r < String.length s.
Proof. intros H. pose proof (skip_ws_length s) as L. rewrite H in L. simpl in L. lia. Qed.

Lemma scan_length s : ∀ acc n v k r,
  scan acc n s = (v, k, r) → String.length r ≤ String.length s.
Proof.
  induction s as [|c s IH]; intros acc n v k r; simpl.
  - intros [= <- <- <-]. simpl. lia.
  - destruct (is_digit c).
    + intros H. apply IH in H. lia.
    + intros [= <- <- <-]. simpl. lia.
Qed.

Lemma scan_digit_head c s acc n v k r :
  negb (is_digit c) = false →
  scan acc n (String c s) = (v, k, r) → String.length r ≤ String.length s.
Proof.
  intros Hc. simpl. destruct (is_digit c); [|discriminate]. apply scan_length.
Qed.

Lemma read_sign_length s : String.length (snd (read_sign s)) ≤ String.length s.
Proof.
  destruct s as [|c s]; simpl; [lia|].
  destruct (Ascii.eqb c "-"), (Ascii.eqb c "+"); simpl; lia.
Qed.

Lemma read_exponent_length s x r :
  read_exponent s = Some (x, r) → String.length r < String.length s.
Proof.
  destruct s as [|c s]; simpl; [discriminate|].
  destruct (Ascii.eqb c "e" || Ascii.eqb c "E"); [|discriminate].
  pose proof (read_sign_length s) as L.
  destruct (read_sign s) as [neg r1]. simpl in L.
  destruct (scan 0 0 r1) as [[v [|k]] r2] eqn:E; [discriminate|].
  intros [= <- <-]. apply scan_length in E. lia.
Qed.

Lemma read_string_bounded n : ∀ s str r,
  String.length s < n → read_string s = Some (str, r) →
  String.length r < String.length s.
Proof.
  induction n as [|n IH]; intros s str r Hn; [lia|].
  destruct s as [|c s]; cbn [read_string]; [discriminate|].
  simpl in Hn. intros H.
  repeat case_match; simplify_eq; cbn [String.length] in *;
    repeat match goal with
    | E : read_string _ = Some _ |- _ => apply IH in E; [|lia]
    end; lia.
Qed.

Lemma read_string_length s str r :
  read_string s = Some (str, r) → String.length r < String.length s.
Proof. apply (read_string_bounded (S (String.length s))). lia. Qed.

Lemma read_number_length s n r :
  read_number s = Some (n, r) → String.length r < String.length s.
Proof.
  unfold read_number. intros H.
  repeat case_match; simplify_eq;
    repeat match goal with
    | E : scan _ _ (String ?a _) = _, D : negb (is_digit ?a) = false |- _ =>
        apply (scan_digit_head _ _ _ _ _ _ _ D) in E
    | E : scan _ _ _ = _ |- _ => apply scan_length in E
    | E : read_exponent _ = Some _ |- _ => apply read_exponent_length in E
    end; cbn [String.length] in *; lia.
Qed.

Ltac lengths :=
  repeat match goal with
  | H : skip_ws _ = String _ _ |- _ => apply skip_ws_cons in H
  | H : read_string _ = Some _ |- _ => apply read_string_length in H
  | H : read_number _ = Some _ |- _ => apply read_number_length in H
  | H : strip_prefix _ _ = Some _ |- _ => apply Split.strip_prefix_length in H
  end.

(** Whatever is parsed leaves strictly less text behind. *)
Lemma parse_shorter fuel :
  (∀ s v r, parse_value fuel s = Parsed v r → String.length r < String.length s)
  ∧ (∀ acc s v r,
       parse_elements fuel acc s = Parsed v r → String.length r < String.length s)
  ∧ (∀ acc s v r,
       parse_members fuel acc s = Parsed v r → String.length r < String.length s).
Proof.
  induction fuel as [|fuel (IHv & IHe & IHm)]; [repeat split; discriminate|].
  repeat split.
  - intros s v r. cbn [parse_value]. intros H.
    repeat case_match; simplify_eq; lengths;
      repeat match goal with
      | E : parse_elements fuel _ _ = Parsed _ _ |- _ => apply IHe in E
      | E : parse_members fuel _ _ = Parsed _ _ |- _ => apply IHm in E
      end; cbn [String.length] in *; lia.
  - intros acc s v r. cbn [parse_elements]. intros H.
    repeat case_match; simplify_eq; lengths;
      repeat match goal with
      | E : parse_value fuel _ = Parsed _ _ |- _ => apply IHv in E
      | E : parse_elements fuel _ _ = Parsed _ _ |- _ => apply IHe in E
      end; cbn [String.length] in *; lia.
  - intros acc s v r. cbn [parse_members]. intros H.
    repeat case_match; simplify_eq; lengths;
      repeat match goal with
      | E : parse_value fuel _ = Parsed _ _ |- _ => apply IHv in E
      | E : parse_members fuel _ _ = Parsed _ _ |- _ => apply IHm in E
      end; cbn [String.length] in *; lia.
Qed.

Lemma parse_value_shorter fuel s v r :
  parse_value fuel s = Parsed v r → String.length r < String.length s.
Proof. apply parse_shorter. Qed.

(** Twice the length of the text, and one more, is fuel enough. *)
Lemma parse_fuel fuel :
  (∀ s, 2 * String.length s + 1 ≤ fuel → parse_value fuel s ≠ OutOfFuel)
  ∧ (∀ acc s, 2 * String.length s + 2 ≤ fuel → parse_elements fuel acc s ≠ OutOfFuel)
  ∧ (∀ acc s, 2 * String.length s + 2 ≤ fuel → parse_members fuel acc s ≠ OutOfFuel).
Proof.
  induction fuel as [|fuel (IHv & IHe & IHm)]; [repeat split; intros; lia|].
  repeat split.
  - intros s Hf. cbn [parse_value]. intros H.
    repeat case_match; simplify_eq; lengths;
      repeat match goal with
      | E : parse_elements fuel _ _ = OutOfFuel |- _ => apply IHe in E; [done|]
      | E : parse_members fuel _ _ = OutOfFuel |- _ => apply IHm in E; [done|]
      end; cbn [String.length] in *; lia.
  - intros acc s Hf. cbn [parse_elements]. intros H.
    repeat case_match; simplify_eq; lengths;
      repeat match goal with
      | E : parse_value fuel _ = Parsed _ _ |- _ => apply parse_value_shorter in E
      | E : parse_value fuel _ = OutOfFuel |- _ => apply IHv in E; [done|]
      | E : parse_elements fuel _ _ = OutOfFuel |- _ => apply IHe in E; [done|]
      end; cbn [String.length] in *; lia.
  - intros acc s Hf. cbn [parse_members]. intros H.
    repeat case_match; simplify_eq; lengths;
      repeat match goal with
      | E : parse_value fuel _ = Parsed _ _ |- _ => apply parse_value_shorter in E
      | E : parse_value fuel _ = OutOfFuel |- _ => apply IHv in E; [done|]
      | E : parse_members fuel _ _ = OutOfFuel |- _ => apply IHm in E; [done|]
      end; cbn [String.length] in *; lia.
Qed.

Lemma parse_value_fuel text : parse_value (fuel_for text) text ≠ OutOfFuel.
Proof. apply parse_fuel. unfold fuel_for. lia. Qed.

(** An answer reached with some fuel is the answer with more fuel. *)

(** Unfolds the parser once on each side of [parse (S (S fuel)) = parse (S fuel)]. *)
Ltac unfold_once fuel :=
  let f1 := fresh "f1" in
  let lhs := fresh "lhs" in
  remember (S fuel) as f1;
  cbn [parse_value parse_elements parse_members];
  match goal with |- ?L = _ => set (lhs := L) end;
  subst f1;
  cbn [parse_value parse_elements parse_members];
  subst lhs.

Lemma parse_stable fuel :
  (∀ s, parse_value fuel s ≠ OutOfFuel →
        parse_value (S fuel) s = parse_value fuel s)
  ∧ (∀ acc s, parse_elements fuel acc s ≠ OutOfFuel →
              parse_elements (S fuel) acc s = parse_elements fuel acc s)
  ∧ (∀ acc s, parse_members fuel acc s ≠ OutOfFuel →
              parse_members (S fuel) acc s = parse_members fuel acc s).
Proof.
  induction fuel as [|fuel (IHv & IHe & IHm)]; [repeat split; intros; simpl in *; congruence|].
  repeat split.
  - intros s H. unfold_once fuel. cbn [parse_value] in H.
    repeat case_match; try reflexivity; first [apply IHe | apply IHm]; assumption.
  - intros acc s H. unfold_once fuel. cbn [parse_elements] in H.
    destruct (parse_value fuel s) as [| |v r] eqn:E; [congruence| |];
      rewrite (IHv s) by congruence; rewrite E; [reflexivity|].
    repeat case_match; try reflexivity; apply IHe; assumption.
  - intros acc s H. unfold_once fuel. cbn [parse_members] in H.
    destruct (skip_ws s) as [|c r]; [reflexivity|].
    destruct (negb (Ascii.eqb c dquote)); [reflexivity|].
    destruct (read_string r) as [[k r1]|]; [|reflexivity].
    destruct (skip_ws r1) as [|c1 r2]; [reflexivity|].
    destruct (negb (Ascii.eqb c1 ":")); [reflexivity|].
    destruct (parse_value fuel r2) as [| |v r3] eqn:E; [congruence| |];
      rewrite (IHv r2) by congruence; rewrite E; [reflexivity|].
    destruct (skip_ws r3) as [|c3 r4]; [reflexivity|].
    destruct (Ascii.eqb c3 ","); [apply IHm; assumption|reflexivity].
Qed.

Lemma parse_value_more_fuel text fuel :
  fuel_for text ≤ fuel → parse_value fuel text = parse_value (fuel_for text) text.
Proof.
  induction 1 as [|fuel Hle IH]; [reflexivity|].
  rewrite <- IH. apply parse_stable. apply parse_fuel.
  unfold fuel_for in Hle. lia.
Qed.

(** [JSON.parse] does not depend on the fuel it is given, beyond there
    being enough of it, so no [SyntaxError] stems from the fuel. *)
Lemma parse_with_more_fuel text fuel :
  fuel_for text ≤ fuel → parse_with fuel text = parse text.
Proof.
  intros H. unfold parse, parse_with. rewrite (parse_value_more_fuel text fuel H).
  reflexivity.
Qed.

Lemma parse_throw_is_syntax text e :
  parse text = Throw e →
  parse_value (fuel_for text) text = Invalid
  ∨ ∃ v rest, parse_value (fuel_for text) text = Parsed v rest
              ∧ skip_ws rest ≠ EmptyString.
Proof.
  unfold parse, parse_with. pose proof (parse_value_fuel text) as Hf.
  destruct (parse_value (fuel_for text) text) as [| |v rest]; [congruence|auto|].
  destruct (skip_ws rest) eqn:E; simpl; [discriminate|].
  intros _. right. exists v, rest. rewrite E. split; [reflexivity|discriminate].
Qed.

End JsonFacts.

(** ** The claims *)

Ltac conjs := repeat match goal with |- _ ∧ _ => split end.

(** C1. [get(key, defaultValue)] returns the string stored in the variable
    table under the namespaced key when that string is present and not
    empty, and [defaultValue] otherwise.  In particular a variable set to
    the empty string yields the default, and an unset variable with no
    default yields [undefined]. *)
Theorem get_value_or_default this (process_env : gmap string string) key defaultValue :
  get this process_env key defaultValue =
    ret (match process_env !! envKey this key with
         | Some (String c s) => VStr (String c s)
         | Some EmptyString | None => defaultValue
         end)
  ∧ get this (<[envKey this key := EmptyString]> process_env) key defaultValue
    = ret defaultValue
  ∧ get this (delete (envKey this key) process_env) key VUndefined = ret VUndefined.
Proof.
  conjs.
  - rewrite get_eq, found_lookup.
    destruct (process_env !! envKey this key) as [[|c s]|]; reflexivity.
  - rewrite get_eq, found_insert. reflexivity.
  - rewrite get_eq, found_delete. reflexivity.
Qed.

(** C2. For every key [K] and environment name [E], the key with which the
    variable table is queried is [UPPERCASE(E) + "_" + UPPERCASE(K)]: the
    result of [get] depends on the table through that entry alone, and a
    non-empty string stored there is what [get] returns.  The namespacing
    is a function of [E] and [K] only, defined for all of them. *)
Theorem namespaced_key_queried E K (process_env process_env' : gmap string string) d :
  process_env !! (Str.toUpperCase E +:+ "_" +:+ Str.toUpperCase K)
    = process_env' !! (Str.toUpperCase E +:+ "_" +:+ Str.toUpperCase K) →
  envKey {| env := E |} K = Str.toUpperCase E +:+ "_" +:+ Str.toUpperCase K
  ∧ get {| env := E |} process_env K d = get {| env := E |} process_env' K d
  ∧ ∀ c s,
      get {| env := E |}
          (<[Str.toUpperCase E +:+ "_" +:+ Str.toUpperCase K := String c s]> process_env)
          K d
      = ret (VStr (String c s)).
Proof.
  intros H. split; [reflexivity|]. split.
  - rewrite !get_eq. unfold found, envKey. cbn [env]. rewrite H. reflexivity.
  - intros c s. rewrite get_eq.
    change (Str.toUpperCase E +:+ "_" +:+ Str.toUpperCase K) with (envKey {| env := E |} K).
    rewrite found_insert. reflexivity.
Qed.

Lemma namespaced_key_queried_witness :
  envKey {| env := "production" |} "port" = "PRODUCTION_PORT"
  ∧ get {| env := "production" |} {[ "PRODUCTION_PORT" := "80" ]} "port" VNull
    = get {| env := "production" |}
        {[ "PRODUCTION_PORT" := "80"; "production_port" := "81" ]} "port" VNull.
Proof.
  destruct (namespaced_key_queried "production" "port"
              {[ "PRODUCTION_PORT" := "80" ]}
              {[ "PRODUCTION_PORT" := "80"; "production_port" := "81" ]} VNull)
    as (Hkey & Hget & _).
  - vm_compute. reflexivity.
  - split; [exact Hkey | exact Hget].
Defined.

(** C3. [getOrThrow(key)] with the default options throws an error whose
    message carries the requested key exactly when [get(key)] yields
    [undefined], which includes the variable being set to the empty string;
    otherwise it returns the non-empty string that [get] produced. *)
Theorem getOrThrow_default_options this (process_env : gmap string string) key :
  (getOrThrow this process_env key None = throw (Error (not_found_message key))
   ↔ get this process_env key VUndefined = ret VUndefined)
  ∧ (∀ v, get this process_env key VUndefined = ret v → v ≠ VUndefined →
          getOrThrow this process_env key None = ret v
          ∧ ∃ c s, v = VStr (String c s))
  ∧ getOrThrow this (<[envKey this key := EmptyString]> process_env) key None
    = throw (Error (not_found_message key)).
Proof.
  conjs.
  - rewrite getOrThrow_eq, get_eq.
    destruct (found this process_env key); split; first [discriminate | reflexivity].
  - intros v. rewrite getOrThrow_eq, get_eq.
    destruct (found this process_env key) as [s|] eqn:F; intros [= <-] Hv; [|congruence].
    split; [reflexivity|].
    apply found_not_empty in F. destruct s as [|c s]; [congruence|eauto].
  - rewrite getOrThrow_eq, found_insert. reflexivity.
Qed.

Lemma getOrThrow_default_options_witness :
  getOrThrow {| env := "development" |} {[ "DEVELOPMENT_REQUIRED" := "yes" ]} "REQUIRED" None
  = ret (VStr "yes").
Proof.
  destruct (getOrThrow_default_options {| env := "development" |}
              {[ "DEVELOPMENT_REQUIRED" := "yes" ]} "REQUIRED") as (_ & Hret & _).
  apply (Hret (VStr "yes")).
  - vm_compute. reflexivity.
  - discriminate.
Defined.

(** C5, as stated, at a default of [true]: with the variable unset,
    [getBoolean("FLAG", true)] returns [true] although no value is found,
    so "returns [true] if and only if a value is found and its lower-cased
    form is [true]" fails there. *)
Lemma getBoolean_default_true_counterexample :
  ¬ (getBoolean {| env := "development" |} ∅ "FLAG" (VBool true) = ret (VBool true)
     ↔ ∃ s, found {| env := "development" |} ∅ "FLAG" = Some s
            ∧ Str.toLowerCase s = "true").
Proof.
  intros [Hret _]. destruct (Hret eq_refl) as (s & Hfound & _). discriminate Hfound.
Qed.

(** C5, amended. [getBoolean(key, defaultValue)] returns [true] if and only
    if either a value is found and its lower-cased form is the literal
    [true], or no value is found and [defaultValue] is [true].  Every other
    found string ("1", "yes", "no", "False", ...) gives [false]; when no
    value is found the result is [defaultValue]. *)
Theorem getBoolean_true_iff this (process_env : gmap string string) key defaultValue :
  (getBoolean this process_env key defaultValue = ret (VBool true)
   ↔ (∃ s, found this process_env key = Some s ∧ Str.toLowerCase s = "true")
     ∨ (found this process_env key = None ∧ defaultValue = VBool true))
  ∧ (∀ s, found this process_env key = Some s → Str.toLowerCase s ≠ "true" →
          getBoolean this process_env key defaultValue = ret (VBool false))
  ∧ (found this process_env key = None →
     getBoolean this process_env key defaultValue = ret defaultValue)
  ∧ Forall (fun s => getBoolean this (<[envKey this key := s]> process_env) key defaultValue
                     = ret (VBool false))
           ["1"; "yes"; "no"; "False"; "false"; "truee"]
  ∧ Forall (fun s => getBoolean this (<[envKey this key := s]> process_env) key defaultValue
                     = ret (VBool true))
           ["true"; "True"; "TRUE"; "tRuE"].
Proof.
  conjs.
  - rewrite getBoolean_eq. destruct (found this process_env key) as [s|]; split.
    + intros [= H]. left. exists s. split; [reflexivity|]. apply String.eqb_eq, H.
    + intros [(s' & [= <-] & H) | [[=] _]]. apply String.eqb_eq in H. rewrite H. reflexivity.
    + intros [= ->]. right. split; reflexivity.
    + intros [(s' & [=] & _) | [_ ->]]. reflexivity.
  - intros s H Hs. rewrite getBoolean_eq, H.
    apply String.eqb_neq in Hs. rewrite Hs. reflexivity.
  - intros H. rewrite getBoolean_eq, H. reflexivity.
  - repeat constructor; rewrite getBoolean_eq, found_insert; reflexivity.
  - repeat constructor; rewrite getBoolean_eq, found_insert; reflexivity.
Qed.

Lemma getBoolean_true_iff_witness :
  getBoolean {| env := "development" |} {[ "DEVELOPMENT_FLAG" := "On" ]} "flag" VNull
  = ret (VBool false)
  ∧ getBoolean {| env := "development" |} {[ "DEVELOPMENT_FLAG" := "TrUe" ]} "flag" VNull
    = ret (VBool true).
Proof.
  split.
  - destruct (getBoolean_true_iff {| env := "development" |}
                {[ "DEVELOPMENT_FLAG" := "On" ]} "flag" VNull) as (_ & H & _).
    apply (H "On"); [reflexivity|discriminate].
  - destruct (getBoolean_true_iff {| env := "development" |}
                {[ "DEVELOPMENT_FLAG" := "TrUe" ]} "flag" VNull) as (H & _).
    apply H. left. exists "TrUe". split; reflexivity.
Defined.

(** C9. When the caller passes an options object that has no [throwError]
    field (for instance [{}]), [getOrThrow] never throws and returns
    [undefined] for an absent variable; the default [throwError: true]
    applies only when the options argument is left out altogether, in which
    case the same call throws. *)
Theorem getOrThrow_partial_options this (process_env : gmap string string) key
    (options : object) :
  has_property options "throwError" = false →
  throws (getOrThrow this process_env key (Some options)) = false
  ∧ getOrThrow this process_env key (Some options) = get this process_env key VUndefined
  ∧ (found this process_env key = None →
     getOrThrow this process_env key (Some options) = ret VUndefined
     ∧ getOrThrow this process_env key None = throw (Error (not_found_message key))).
Proof.
  intros Hno. apply has_property_get in Hno.
  rewrite !getOrThrow_eq, get_eq. simpl. rewrite Hno. simpl.
  conjs.
  - destruct (found this process_env key); reflexivity.
  - destruct (found this process_env key); reflexivity.
  - intros H. rewrite H. split; reflexivity.
Qed.

Lemma getOrThrow_partial_options_witness :
  throws (getOrThrow {| env := "development" |} ∅ "REQUIRED" (Some [])) = false
  ∧ getOrThrow {| env := "development" |} ∅ "REQUIRED" (Some [("verbose", VBool true)])
    = ret VUndefined.
Proof.
  split.
  - apply (getOrThrow_partial_options {| env := "development" |} ∅ "REQUIRED" []).
    reflexivity.
  - destruct (getOrThrow_partial_options {| env := "development" |} ∅ "REQUIRED"
                [("verbose", VBool true)]) as (_ & _ & H).
    + reflexivity.
    + apply H. reflexivity.
Defined.



Lemma getOrThrow_with_object this (process_env : gmap string string) key o :
  getOrThrow_with this process_env key (VObj o)
  = getOrThrow this process_env key (Some o).
Proof.
  unfold getOrThrow_with. rewrite getOrThrow_eq, get_eq.
  destruct (found this process_env key); [reflexivity|]. simpl.
  destruct (toBoolean (get_property o "throwError")); reflexivity.
Qed.

(** With a key that is not a string every operation ends in the
    [TypeError] of line 37, whatever the table, the default and the
    options. *)
Lemma non_string_key_throws this (process_env : gmap string string) key
    separator defaultValue options :
  (∀ k, key ≠ VStr k) →
  ∃ message,
    get_any this process_env key defaultValue = throw (TypeError message)
    ∧ getString_any this process_env key defaultValue = throw (TypeError message)
    ∧ getBoolean_any this process_env key defaultValue = throw (TypeError message)
    ∧ getNumber_any this process_env key defaultValue = throw (TypeError message)
    ∧ getArray_any this process_env key separator defaultValue = throw (TypeError message)
    ∧ getObject_any this process_env key defaultValue = throw (TypeError message)
    ∧ getOrThrow_any this process_env key options = throw (TypeError message).
Proof.
  intros Hkey. destruct key; try (eexists; conjs; reflexivity).
  contradiction (Hkey s). reflexivity.
Qed.



(** C6. [getNumber(key, defaultValue)] returns [defaultValue] when no value
    is found and otherwise what [parseFloat] reads from the found string:
    text that follows a numeral and cannot continue it is ignored, and a
    string without any numeral gives NaN, neither the default nor an error.
    With the environment name left to its default and [DEVELOPMENT_PORT]
    set to "3000", [getNumber("PORT")] is 3000. *)
Theorem getNumber_parses_prefix this (process_env : gmap string string) key defaultValue :
  (found this process_env key = None →
   getNumber this process_env key defaultValue = ret defaultValue)
  ∧ (∀ s, found this process_env key = Some s →
          getNumber this process_env key defaultValue = ret (VNum (Float.parseFloat s)))
  ∧ (∀ p g, found this process_env key = Some (p +:+ g) →
            Float.is_numeral p = true → Float.is_garbage g = true →
            getNumber this process_env key defaultValue = ret (VNum (Float.parseFloat p)))
  ∧ (∀ s, found this process_env key = Some s →
          Float.has_no_digit s = true → Float.is_infinity_literal s = false →
          getNumber this process_env key defaultValue = ret (VNum NaN))
  ∧ (let table : gmap string string := {[ "DEVELOPMENT_PORT" := "3000" ]} in
     env (module_exports table) = "development"
     ∧ getNumber (module_exports table) table "PORT" VUndefined
       = ret (VNum (number_of_Z 3000))).
Proof.
  conjs.
  - intros H. rewrite getNumber_eq, H. reflexivity.
  - intros s H. rewrite getNumber_eq, H. reflexivity.
  - intros p g H Hp Hg. rewrite getNumber_eq, H.
    rewrite FloatFacts.parseFloat_numeral_garbage by assumption. reflexivity.
  - intros s H Hs Hinf. rewrite getNumber_eq, H.
    rewrite FloatFacts.parseFloat_non_numeric by assumption. reflexivity.
  - cbv zeta. split; reflexivity.
Qed.

Lemma getNumber_parses_prefix_witness :
  getNumber {| env := "production" |} {[ "PRODUCTION_WIDTH" := "42px" ]} "width" VNull
  = ret (VNum (number_of_Z 42))
  ∧ getNumber {| env := "production" |} {[ "PRODUCTION_SPEED" := " -1.5e3 rpm" ]} "speed" VNull
    = ret (VNum (Finite true 15 2))
  ∧ getNumber {| env := "production" |} {[ "PRODUCTION_WIDTH" := "wide" ]} "width" VNull
    = ret (VNum NaN).
Proof.
  conjs.
  - destruct (getNumber_parses_prefix {| env := "production" |}
                {[ "PRODUCTION_WIDTH" := "42px" ]} "width" VNull) as (_ & _ & H & _).
    apply (H "42" "px"); reflexivity.
  - destruct (getNumber_parses_prefix {| env := "production" |}
                {[ "PRODUCTION_SPEED" := " -1.5e3 rpm" ]} "speed" VNull) as (_ & _ & H & _).
    apply (H " -1.5e3" " rpm"); reflexivity.
  - destruct (getNumber_parses_prefix {| env := "production" |}
                {[ "PRODUCTION_WIDTH" := "wide" ]} "width" VNull) as (_ & _ & _ & H & _).
    apply (H "wide"); reflexivity.
Defined.

(** C7. [getArray(key, separator, defaultValue)] returns the pieces, in
    order, into which the separator splits the found value: joined again
    with the separator they give the value back, and with a non-empty
    separator no piece contains it.  "a;b;c" split on ";" is
    ["a", "b", "c"].  When no value is found the result is [defaultValue],
    and a separator that is left out is ",". *)
Theorem getArray_splits this (process_env : gmap string string) key separator defaultValue :
  (∀ s, found this process_env key = Some s →
        getArray this process_env key (Some separator) defaultValue
        = ret (VArr (VStr <$> Split.split s separator))
        ∧ Str.join separator (Split.split s separator) = s
        ∧ (separator ≠ EmptyString →
           Forall (fun piece => Split.cut separator piece = None)
                  (Split.split s separator)))
  ∧ (found this process_env key = None →
     getArray this process_env key (Some separator) defaultValue = ret defaultValue)
  ∧ getArray this process_env key None defaultValue
    = getArray this process_env key (Some ",") defaultValue
  ∧ getArray this (<[envKey this key := "a;b;c"]> process_env) key (Some ";") defaultValue
    = ret (VArr [VStr "a"; VStr "b"; VStr "c"])
  ∧ getArray this (delete (envKey this key) process_env) key (Some ";") (VArr [])
    = ret (VArr []).
Proof.
  conjs.
  - intros s H. conjs.
    + rewrite getArray_eq, H. reflexivity.
    + apply SplitFacts.split_join.
    + intros Hsep. destruct separator as [|c0 sep']; [congruence|].
      apply SplitFacts.split_on_pieces_free.
  - intros H. rewrite getArray_eq, H. reflexivity.
  - reflexivity.
  - rewrite getArray_eq, found_insert. reflexivity.
  - rewrite getArray_eq, found_delete. reflexivity.
Qed.

Lemma getArray_splits_witness :
  getArray {| env := "test" |} {[ "TEST_HOSTS" := "a.org, b.org" ]} "hosts" (Some ", ") VNull
  = ret (VArr [VStr "a.org"; VStr "b.org"]).
Proof.
  destruct (getArray_splits {| env := "test" |} {[ "TEST_HOSTS" := "a.org, b.org" ]}
              "hosts" ", " VNull) as (H & _).
  destruct (H "a.org, b.org") as (Hget & _).
  - reflexivity.
  - exact Hget.
Defined.

(** C8. [getObject(key, defaultValue)] parses a found value as JSON and
    returns the parsed structure.  When the found value is malformed, as
    "{not valid json" is, the failure of the parse is caught and reported,
    and [defaultValue] is returned; no exception reaches the caller.  When
    no value is found [defaultValue] is returned. *)
Theorem getObject_parse_or_default this (process_env : gmap string string) key defaultValue :
  (∀ s v, found this process_env key = Some s → Json.parse s = Normal v →
          getObject this process_env key defaultValue = ret v)
  ∧ (∀ s e, found this process_env key = Some s → Json.parse s = Throw e →
            getObject this process_env key defaultValue
            = (Normal defaultValue,
               [Diagnostic ("Error parsing JSON for " +:+ key +:+ ":") e]))
  ∧ (found this process_env key = None →
     getObject this process_env key defaultValue = ret defaultValue)
  ∧ outcome (getObject this (<[envKey this key := "{not valid json"]> process_env)
               key defaultValue)
    = Normal defaultValue
  ∧ (let q := String Json.dquote EmptyString in
     getObject this
       (<[envKey this key := "{" +:+ q +:+ "port" +:+ q +:+ ": [80, 8e1], "
                             +:+ q +:+ "tls" +:+ q +:+ ": true}"]> process_env)
       key defaultValue
     = ret (VObj [("port", VArr [VNum (Finite false 80 0); VNum (Finite false 8 1)]);
                  ("tls", VBool true)])).
Proof.
  conjs.
  - intros s v H Hp. rewrite getObject_eq, H, Hp. reflexivity.
  - intros s e H Hp. rewrite getObject_eq, H, Hp. reflexivity.
  - intros H. rewrite getObject_eq, H. reflexivity.
  - rewrite getObject_eq, found_insert. reflexivity.
  - cbv zeta. rewrite getObject_eq, found_insert. reflexivity.
Qed.

Lemma getObject_parse_or_default_witness :
  getObject {| env := "development" |} {[ "DEVELOPMENT_CFG" := "[1, [], null]" ]} "cfg" VNull
  = ret (VArr [VNum (number_of_Z 1); VArr []; VNull])
  ∧ getObject {| env := "development" |} {[ "DEVELOPMENT_CFG" := "[1, [], null" ]} "cfg" VNull
    = (Normal VNull,
       [Diagnostic "Error parsing JSON for cfg:" (SyntaxError "Unexpected token in JSON")]).
Proof.
  split.
  - destruct (getObject_parse_or_default {| env := "development" |}
                {[ "DEVELOPMENT_CFG" := "[1, [], null]" ]} "cfg" VNull) as (H & _).
    apply (H "[1, [], null]"); reflexivity.
  - destruct (getObject_parse_or_default {| env := "development" |}
                {[ "DEVELOPMENT_CFG" := "[1, [], null" ]} "cfg" VNull) as (_ & H & _).
    apply (H "[1, [], null"); reflexivity.
Defined.

(** C10. Whenever [getArray] finds a value, the sequence it returns has at
    least one element, since splitting a non-empty string always gives at
    least one piece; an empty array can come only from [defaultValue]. *)
Theorem getArray_found_not_empty this (process_env : gmap string string) key
    separator defaultValue :
  (∀ s, found this process_env key = Some s →
        ∃ piece pieces,
          getArray this process_env key separator defaultValue
          = ret (VArr (VStr piece :: (VStr <$> pieces))))
  ∧ (getArray this process_env key separator defaultValue = ret (VArr []) →
     found this process_env key = None ∧ defaultValue = VArr []).
Proof.
  split.
  - intros s H. rewrite getArray_eq, H.
    pose proof (found_not_empty _ _ _ _ H) as Hs.
    apply (SplitFacts.split_not_nil s (default "," separator)) in Hs.
    destruct (Split.split s (default "," separator)) as [|piece pieces]; [congruence|].
    exists piece, pieces. reflexivity.
  - rewrite getArray_eq. destruct (found this process_env key) as [s|] eqn:H.
    + pose proof (found_not_empty _ _ _ _ H) as Hs.
      apply (SplitFacts.split_not_nil s (default "," separator)) in Hs.
      destruct (Split.split s (default "," separator)); [congruence|discriminate].
    + intros [= ->]. split; reflexivity.
Qed.

Lemma getArray_found_not_empty_witness :
  ∃ piece pieces,
    getArray {| env := "test" |} {[ "TEST_TAGS" := "," ]} "tags" None (VArr [])
    = ret (VArr (VStr piece :: (VStr <$> pieces))).
Proof.
  destruct (getArray_found_not_empty {| env := "test" |} {[ "TEST_TAGS" := "," ]}
              "tags" None (VArr [])) as (H & _).
  apply (H ","). reflexivity.
Defined.

(** ** Further properties of the accessor *)

Lemma map_chars_length f s : String.length (Str.map_chars f s) = String.length s.
Proof. induction s; simpl; congruence. Qed.

Lemma map_chars_app f s t :
  Str.map_chars f (s +:+ t) = Str.map_chars f s +:+ Str.map_chars f t.
Proof. induction s; simpl; congruence. Qed.

Lemma append_assoc s t u : (s +:+ t) +:+ u = s +:+ t +:+ u.
Proof. induction s; simpl; congruence. Qed.

Lemma found_same_key this this' (process_env : gmap string string) key key' :
  envKey this key = envKey this' key' →
  found this process_env key = found this' process_env key'.
Proof. unfold found. intros ->. reflexivity. Qed.

Lemma found_insert_ne this (process_env : gmap string string) key name v :
  name ≠ envKey this key →
  found this (<[name := v]> process_env) key = found this process_env key.
Proof. intros H. unfold found. rewrite lookup_insert_ne by exact H. reflexivity. Qed.

Lemma found_delete_ne this (process_env : gmap string string) key name :
  name ≠ envKey this key →
  found this (delete name process_env) key = found this process_env key.
Proof. intros H. unfold found. rewrite lookup_delete_ne by exact H. reflexivity. Qed.

(** Every operation is a function of the value found for the key. *)
Lemma readings_found this (process_env process_env' : gmap string string)
    key separator d options :
  found this process_env key = found this process_env' key →
  readings this process_env key separator d options
  = readings this process_env' key separator d options.
Proof.
  intros H. unfold readings.
  rewrite !get_eq, !getString_eq, !getBoolean_eq, !getNumber_eq, !getArray_eq,
    !getObject_eq, !getOrThrow_eq, H.
  reflexivity.
Qed.

(** X1. The environment name of a constructed accessor is never empty: it
    is the constructor's argument when that is a non-empty string, else
    [NODE_ENV] when that is set and not empty, else "development". *)
Theorem constructor_env_precedence (process_env : gmap string string) (e : option string) :
  env (constructor process_env e) ≠ EmptyString
  ∧ (∀ s, e = Some s → s ≠ EmptyString → env (constructor process_env e) = s)
  ∧ (e = None ∨ e = Some EmptyString →
     (∀ n, process_env !! "NODE_ENV" = Some n → n ≠ EmptyString →
           env (constructor process_env e) = n)
     ∧ (process_env !! "NODE_ENV" = None ∨ process_env !! "NODE_ENV" = Some EmptyString →
        env (constructor process_env e) = "development")).
Proof.
  unfold constructor, or_string. cbn [env]. conjs.
  - destruct e as [[|c s]|], (process_env !! "NODE_ENV") as [[|c' n]|]; discriminate.
  - intros s -> Hs. destruct s; [congruence|reflexivity].
  - intros [-> | ->]; (split;
      [ intros n -> Hn; destruct n; [congruence|reflexivity]
      | intros [-> | ->]; reflexivity ]).
Qed.

Lemma constructor_env_precedence_witness :
  env (constructor {[ "NODE_ENV" := "staging" ]} (Some "test")) = "test"
  ∧ env (constructor {[ "NODE_ENV" := "staging" ]} (Some EmptyString)) = "staging".
Proof.
  split.
  - destruct (constructor_env_precedence {[ "NODE_ENV" := "staging" ]} (Some "test"))
      as (_ & H & _).
    apply (H "test"); [reflexivity|discriminate].
  - destruct (constructor_env_precedence {[ "NODE_ENV" := "staging" ]} (Some EmptyString))
      as (_ & _ & H).
    destruct H as (H & _); [right; reflexivity|].
    apply (H "staging"); [reflexivity|discriminate].
Defined.

(** X2. Keys are read without regard to case, and so is the environment
    name: two keys (two names) with the same upper-case form give the same
    result in every getter.  [getObject] may differ in the label of its
    report and [getOrThrow] in the message of its error, which quote the
    key as it was passed. *)
Theorem getters_ignore_case this this' (process_env : gmap string string)
    key key' separator d options :
  Str.toUpperCase (env this) = Str.toUpperCase (env this') →
  Str.toUpperCase key = Str.toUpperCase key' →
  get this process_env key d = get this' process_env key' d
  ∧ getString this process_env key d = getString this' process_env key' d
  ∧ getBoolean this process_env key d = getBoolean this' process_env key' d
  ∧ getNumber this process_env key d = getNumber this' process_env key' d
  ∧ getArray this process_env key separator d = getArray this' process_env key' separator d
  ∧ outcome (getObject this process_env key d) = outcome (getObject this' process_env key' d)
  ∧ throws (getOrThrow this process_env key options)
    = throws (getOrThrow this' process_env key' options)
  ∧ (throws (getOrThrow this process_env key options) = false →
     getOrThrow this process_env key options = getOrThrow this' process_env key' options).
Proof.
  intros He Hk.
  assert (found this process_env key = found this' process_env key') as H.
  { apply found_same_key. unfold envKey. rewrite He, Hk. reflexivity. }
  rewrite !get_eq, !getString_eq, !getBoolean_eq, !getNumber_eq, !getArray_eq,
    !getObject_eq, !getOrThrow_eq, H.
  conjs; try reflexivity.
  - destruct (found this' process_env key') as [s|]; [|reflexivity].
    destruct (Json.parse s); reflexivity.
  - destruct (found this' process_env key'); [reflexivity|].
    destruct (toBoolean _); reflexivity.
  - destruct (found this' process_env key'); [reflexivity|].
    destruct (toBoolean _); [discriminate|reflexivity].
Qed.

Lemma getters_ignore_case_witness :
  get {| env := "Production" |} {[ "PRODUCTION_API_URL" := "https://a.example" ]}
      "api_url" VUndefined
  = get {| env := "production" |} {[ "PRODUCTION_API_URL" := "https://a.example" ]}
      "Api_Url" VUndefined.
Proof.
  apply (getters_ignore_case {| env := "Production" |} {| env := "production" |}
           {[ "PRODUCTION_API_URL" := "https://a.example" ]} "api_url" "Api_Url"
           None VUndefined None); reflexivity.
Defined.

(** X3. The operations for a key read one variable only: setting or
    removing any variable other than the namespaced key changes the result
    of none of them. *)
Theorem other_variables_do_not_matter this (process_env : gmap string string)
    key separator d options name v :
  name ≠ envKey this key →
  readings this (<[name := v]> process_env) key separator d options
  = readings this process_env key separator d options
  ∧ readings this (delete name process_env) key separator d options
    = readings this process_env key separator d options.
Proof.
  intros H. split; apply readings_found.
  - apply found_insert_ne, H.
  - apply found_delete_ne, H.
Qed.

Lemma other_variables_do_not_matter_witness :
  readings {| env := "test" |} (<["PORT" := "1"]> {[ "TEST_PORT" := "2" ]})
    "port" None VNull None
  = readings {| env := "test" |} {[ "TEST_PORT" := "2" ]} "port" None VNull None.
Proof.
  apply (other_variables_do_not_matter {| env := "test" |} {[ "TEST_PORT" := "2" ]}
           "port" None VNull None "PORT" "1").
  discriminate.
Defined.

(** X4. A variable whose name has a lower-case ASCII letter is never read:
    whatever the accessor's environment name and whatever key is asked for,
    setting such a variable changes no result. *)
Theorem lower_case_variables_are_invisible this (process_env : gmap string string)
    key separator d options name v :
  Str.all_chars (fun c => negb (Str.is_lower c)) name = false →
  readings this (<[name := v]> process_env) key separator d options
  = readings this process_env key separator d options.
Proof.
  intros Hname. apply readings_found, found_insert_ne.
  intros ->. rewrite envKey_no_lower in Hname. discriminate.
Qed.

Lemma lower_case_variables_are_invisible_witness :
  readings {| env := "development" |}
    (<["development_port" := "3000"]> ∅) "port" None VNull None
  = readings {| env := "development" |} ∅ "port" None VNull None.
Proof.
  apply (lower_case_variables_are_invisible {| env := "development" |} ∅
           "port" None VNull None "development_port" "3000").
  reflexivity.
Defined.

(** X5. [getString] and [get] agree on every input, and passing a default
    to [get] is the same as applying [||] to the result of [get(key)]. *)
Theorem getString_is_get this (process_env : gmap string string) key d :
  getString this process_env key d = get this process_env key d
  ∧ get this process_env key d
    = (let* v := get this process_env key VUndefined in ret (js_or v d)).
Proof.
  rewrite getString_eq, !get_eq. split; [reflexivity|].
  destruct (found this process_env key) as [s|] eqn:F; [|reflexivity].
  apply found_not_empty in F. destruct s; [congruence|reflexivity].
Qed.

(** X6. Only [getObject] writes to [console.error], and it writes one
    report, labelled with the key and carrying the parse error, exactly
    when a value is found that is not valid JSON. *)
Theorem only_getObject_reports this (process_env : gmap string string)
    key separator d options :
  reports (get this process_env key d) = []
  ∧ reports (getString this process_env key d) = []
  ∧ reports (getBoolean this process_env key d) = []
  ∧ reports (getNumber this process_env key d) = []
  ∧ reports (getArray this process_env key separator d) = []
  ∧ reports (getOrThrow this process_env key options) = []
  ∧ (reports (getObject this process_env key d) ≠ []
     ↔ ∃ s e, found this process_env key = Some s ∧ Json.parse s = Throw e)
  ∧ (∀ s e, found this process_env key = Some s → Json.parse s = Throw e →
            reports (getObject this process_env key d)
            = [Diagnostic ("Error parsing JSON for " +:+ key +:+ ":") e]).
Proof.
  rewrite get_eq, getString_eq, getBoolean_eq, getNumber_eq, getArray_eq,
    getObject_eq, getOrThrow_eq.
  conjs; try reflexivity.
  - destruct (found this process_env key); [reflexivity|].
    destruct (toBoolean _); reflexivity.
  - destruct (found this process_env key) as [s|]; [|split].
    + destruct (Json.parse s) as [v|e] eqn:P; split.
      * intros H. contradiction H. reflexivity.
      * intros (s' & e & [= <-] & P'). congruence.
      * intros _. eauto.
      * intros _. discriminate.
    + intros H. contradiction H. reflexivity.
    + intros (s & e & [=] & _).
  - intros s e -> ->. reflexivity.
Qed.

Lemma only_getObject_reports_witness :
  reports (getObject {| env := "test" |} {[ "TEST_CFG" := "{" ]} "cfg" VNull)
  = [Diagnostic "Error parsing JSON for cfg:" (SyntaxError "Unexpected token in JSON")].
Proof.
  destruct (only_getObject_reports {| env := "test" |} {[ "TEST_CFG" := "{" ]}
              "cfg" None VNull None) as (_ & _ & _ & _ & _ & _ & _ & H).
  apply (H "{"); reflexivity.
Defined.

(** X7. For a string key and options of any kind whose [throwError] is
    not a number, [getOrThrow] throws exactly when no value is found and
    either the options are [null] or [options.throwError] is truthy (it is
    [true] when the options are left out).  With [null] options the
    exception is the [TypeError] of reading a property of [null];
    otherwise it is the error naming the key.  When [getOrThrow] does not
    throw it returns what [get(key)] returns. *)
Theorem getOrThrow_throws_iff this (process_env : gmap string string) key
    (options : value) :
  flag_is_number options = false →
  (throws (getOrThrow_any this process_env (VStr key) options) = true
   ↔ found this process_env key = None
     ∧ (options = VNull
        ∨ ∃ flag, throwError_of options = ret flag ∧ toBoolean flag = true))
  ∧ (∀ e, outcome (getOrThrow_any this process_env (VStr key) options) = Throw e →
          (options = VNull ∧ ∃ message, e = TypeError message)
          ∨ (options ≠ VNull ∧ e = Error (not_found_message key)))
  ∧ (throws (getOrThrow_any this process_env (VStr key) options) = false →
     getOrThrow_any this process_env (VStr key) options
     = get this process_env key VUndefined).
Proof.
  intros _. unfold getOrThrow_any, with_key, getOrThrow_with. rewrite get_eq.
  destruct (found this process_env key) as [s|]; cbn [bind ret is_undefined].
  - conjs.
    + split; [discriminate|]. intros [[=] _].
    + discriminate.
    + reflexivity.
  - destruct options as [| |b|n|str|l|o]; cbn [throwError_of bind ret throw toBoolean].
    + (* left out *)
      conjs.
      * split; [|reflexivity]. intros _. split; [reflexivity|].
        right. exists (VBool true). split; reflexivity.
      * intros e [= <-]. right. split; [discriminate|reflexivity].
      * discriminate.
    + (* null *)
      conjs.
      * split; [|reflexivity]. intros _. split; [reflexivity|]. left. reflexivity.
      * intros e [= <-]. left. split; [reflexivity|eauto].
      * discriminate.
    + conjs; [split; [discriminate|intros [_ [[=]|(f & [= <-] & [=])]]]
             |discriminate|reflexivity].
    + conjs; [split; [discriminate|intros [_ [[=]|(f & [= <-] & [=])]]]
             |discriminate|reflexivity].
    + conjs; [split; [discriminate|intros [_ [[=]|(f & [= <-] & [=])]]]
             |discriminate|reflexivity].
    + conjs; [split; [discriminate|intros [_ [[=]|(f & [= <-] & [=])]]]
             |discriminate|reflexivity].
    + (* an object *)
      destruct (toBoolean (get_property o "throwError")) eqn:T; conjs.
      * split; [|reflexivity]. intros _. split; [reflexivity|].
        right. exists (get_property o "throwError"). split; [reflexivity|exact T].
      * intros e [= <-]. right. split; [discriminate|reflexivity].
      * discriminate.
      * split; [discriminate|].
        intros [_ [[=]|(f & [= <-] & Hf)]]. congruence.
      * discriminate.
      * reflexivity.
Qed.

Lemma getOrThrow_throws_iff_witness :
  getOrThrow_any {| env := "test" |} ∅ (VStr "token")
    (VObj [("throwError", VStr EmptyString)])
  = get {| env := "test" |} ∅ "token" VUndefined
  ∧ throws (getOrThrow_any {| env := "test" |} ∅ (VStr "token") VNull) = true.
Proof.
  split.
  - destruct (getOrThrow_throws_iff {| env := "test" |} ∅ "token"
                (VObj [("throwError", VStr EmptyString)])) as (_ & _ & H).
    + reflexivity.
    + apply H. reflexivity.
  - destruct (getOrThrow_throws_iff {| env := "test" |} ∅ "token" VNull) as (H & _).
    + reflexivity.
    + apply H. split; [reflexivity|]. left. reflexivity.
Defined.

(** X8. When a value is found the typed getters do not look at the
    default, and each returns a value of its own kind: [getString] a
    string, [getBoolean] a boolean, [getNumber] a number, [getArray] an
    array of strings. *)
Theorem found_value_has_its_type this (process_env : gmap string string)
    key separator s :
  found this process_env key = Some s →
  ∀ d,
    getString this process_env key d = ret (VStr s)
    ∧ (∃ b, getBoolean this process_env key d = ret (VBool b))
    ∧ (∃ n, getNumber this process_env key d = ret (VNum n))
    ∧ (∃ pieces, getArray this process_env key separator d = ret (VArr (VStr <$> pieces)))
    ∧ ∀ d',
        getBoolean this process_env key d = getBoolean this process_env key d'
        ∧ getNumber this process_env key d = getNumber this process_env key d'
        ∧ getArray this process_env key separator d
          = getArray this process_env key separator d'.
Proof.
  intros H d. rewrite getString_eq. split; [rewrite H; reflexivity|].
  split; [rewrite getBoolean_eq, H; eauto|].
  split; [rewrite getNumber_eq, H; eauto|].
  split; [rewrite getArray_eq, H; eauto|].
  intros d'. rewrite !getBoolean_eq, !getNumber_eq, !getArray_eq, H. auto.
Qed.

Lemma found_value_has_its_type_witness :
  getString {| env := "test" |} {[ "TEST_NAME" := "x" ]} "name" (VNum NaN) = ret (VStr "x").
Proof.
  apply (found_value_has_its_type {| env := "test" |} {[ "TEST_NAME" := "x" ]}
           "name" None "x").
  reflexivity.
Defined.

Lemma chars_length s : length (Split.chars s) = String.length s.
Proof. induction s; simpl; congruence. Qed.

Lemma chars_single s : Forall (fun piece => String.length piece = 1) (Split.chars s).
Proof. induction s; simpl; constructor; [reflexivity|assumption]. Qed.

(** X9. The two edge cases of the separator.  A non-empty separator that
    does not occur in the found value gives the one-element array holding
    the value whole; the empty separator gives one one-character string
    for each character of the value. *)
Theorem getArray_edge_separators this (process_env : gmap string string) key d s :
  found this process_env key = Some s →
  (∀ separator, separator ≠ EmptyString → Split.cut separator s = None →
                getArray this process_env key (Some separator) d = ret (VArr [VStr s]))
  ∧ ∃ pieces,
      getArray this process_env key (Some EmptyString) d = ret (VArr (VStr <$> pieces))
      ∧ length pieces = String.length s
      ∧ Forall (fun piece => String.length piece = 1) pieces.
Proof.
  intros H. split.
  - intros separator Hsep Hcut. rewrite getArray_eq, H. simpl.
    rewrite (SplitFacts.split_no_separator _ _ Hcut Hsep). reflexivity.
  - exists (Split.chars s). rewrite getArray_eq, H.
    split; [reflexivity|]. split; [apply chars_length | apply chars_single].
Qed.

Lemma getArray_edge_separators_witness :
  getArray {| env := "test" |} {[ "TEST_HOSTS" := "a.org b.org" ]} "hosts" (Some ",") VNull
  = ret (VArr [VStr "a.org b.org"]).
Proof.
  destruct (getArray_edge_separators {| env := "test" |} {[ "TEST_HOSTS" := "a.org b.org" ]}
              "hosts" VNull "a.org b.org") as (H & _).
  - reflexivity.
  - apply (H ","); [discriminate|reflexivity].
Defined.

(** X10. [getBoolean] does not trim: a found value whose length is not 4
    (" true", "true" followed by a line break, "yes", "1") gives [false]. *)
Theorem getBoolean_needs_four_characters this (process_env : gmap string string) key d s :
  found this process_env key = Some s → String.length s ≠ 4 →
  getBoolean this process_env key d = ret (VBool false).
Proof.
  intros H Hlen. rewrite getBoolean_eq, H.
  destruct (String.eqb_spec (Str.toLowerCase s) "true") as [E|]; [|reflexivity].
  contradiction Hlen. rewrite <- (map_chars_length Str.lower_char s).
  fold (Str.toLowerCase s). rewrite E. reflexivity.
Qed.

Lemma getBoolean_needs_four_characters_witness :
  getBoolean {| env := "test" |} {[ "TEST_DEBUG" := " true" ]} "debug" VNull
  = ret (VBool false).
Proof.
  apply (getBoolean_needs_four_characters {| env := "test" |} {[ "TEST_DEBUG" := " true" ]}
           "debug" VNull " true"); [reflexivity|discriminate].
Defined.

(** X13. Namespaces overlap: the accessor of environment [E_K1] reads for
    key [K2] the variable that the accessor of environment [E] reads for
    key [K1_K2], so the five getters below return the same for both. *)
Theorem namespaces_overlap E K1 K2 (process_env : gmap string string) separator d :
  envKey {| env := E +:+ "_" +:+ K1 |} K2 = envKey {| env := E |} (K1 +:+ "_" +:+ K2)
  ∧ get {| env := E +:+ "_" +:+ K1 |} process_env K2 d
    = get {| env := E |} process_env (K1 +:+ "_" +:+ K2) d
  ∧ getString {| env := E +:+ "_" +:+ K1 |} process_env K2 d
    = getString {| env := E |} process_env (K1 +:+ "_" +:+ K2) d
  ∧ getBoolean {| env := E +:+ "_" +:+ K1 |} process_env K2 d
    = getBoolean {| env := E |} process_env (K1 +:+ "_" +:+ K2) d
  ∧ getNumber {| env := E +:+ "_" +:+ K1 |} process_env K2 d
    = getNumber {| env := E |} process_env (K1 +:+ "_" +:+ K2) d
  ∧ getArray {| env := E +:+ "_" +:+ K1 |} process_env K2 separator d
    = getArray {| env := E |} process_env (K1 +:+ "_" +:+ K2) separator d.
Proof.
  assert (envKey {| env := E +:+ "_" +:+ K1 |} K2
          = envKey {| env := E |} (K1 +:+ "_" +:+ K2)) as Hkey.
  { unfold envKey, Str.toUpperCase. cbn [env].
    rewrite !map_chars_app, !append_assoc. reflexivity. }
  split; [exact Hkey|].
  rewrite !get_eq, !getString_eq, !getBoolean_eq, !getNumber_eq, !getArray_eq.
  rewrite (found_same_key _ _ process_env _ _ Hkey). conjs; reflexivity.
Qed.

(** *** Integers read as JSON and read by parseFloat *)

Module IntegerFacts.
Import Str Digits.

Lemma digit_is_no_token c :
  is_digit c = true →
  Json.is_ws c = false ∧ Ascii.eqb c "{" = false ∧ Ascii.eqb c "[" = false
  ∧ Ascii.eqb c Json.dquote = false ∧ Ascii.eqb "t" c = false
  ∧ Ascii.eqb "f" c = false ∧ Ascii.eqb "n" c = false ∧ Ascii.eqb c "-" = false
  ∧ Ascii.eqb c "+" = false ∧ Ascii.eqb c "." = false ∧ Ascii.eqb c "e" = false
  ∧ Ascii.eqb c "E" = false ∧ Float.is_whitespace c = false ∧ Ascii.eqb "I" c = false.
Proof.
  StrFacts.each_char c; first [discriminate | intros _; repeat split; reflexivity].
Qed.

Lemma scan_all_digits s : ∀ acc n,
  all_chars is_digit s = true → ∃ v, scan acc n s = (v, n + String.length s, EmptyString).
Proof.
  induction s as [|c s IH]; intros acc n; simpl.
  - intros _. exists acc. f_equal. f_equal. lia.
  - intros H. apply andb_prop in H as [Hc Hs]. rewrite Hc.
    destruct (IH (10 * acc + digit_value c)%N (S n) Hs) as (v & Hv).
    exists v. rewrite Hv. f_equal. f_equal. lia.
Qed.

(** Both readers see the same number in a plain integer. *)
Lemma plain_integer_reads s :
  is_plain_integer s = true →
  ∃ m, Float.parseFloat s = Finite false m 0
       ∧ Json.parse s = Normal (VNum (Finite false m 0)).
Proof.
  destruct s as [|d ds]; [discriminate|]. unfold is_plain_integer.
  intros H. apply andb_prop in H as [Hall Hzero].
  pose proof Hall as Hd. simpl in Hd. apply andb_prop in Hd as [Hd _].
  destruct (digit_is_no_token d Hd)
    as (Hws & Hb & Hk & Hq & Ht & Hf & Hn & Hm & Hp & Hdot & He & HE & Hw & HI).
  destruct (scan_all_digits (String d ds) 0 0 Hall) as (v & Hv).
  destruct (Ascii.eqb_spec d "0") as [->|Hnz].
  - destruct ds; [|discriminate]. exists 0%N. split; reflexivity.
  - exists v. split.
    + unfold Float.parseFloat. cbn [Float.trim_start]. rewrite Hw.
      cbn [read_sign]. rewrite Hm, Hp. cbn [strip_prefix]. rewrite HI.
      unfold Float.read_unsigned_decimal. rewrite Hv. reflexivity.
    + unfold Json.parse, Json.parse_with, Json.fuel_for.
      replace (2 * String.length (String d ds) + 1)
        with (S (2 * String.length (String d ds))) by lia.
      cbn [Json.parse_value Json.skip_ws strip_prefix].
      rewrite Hws, Hb, Hk, Hq, Ht, Hf, Hn.
      unfold Json.read_number. rewrite Hm, Hd. cbn [negb].
      destruct (Ascii.eqb_spec d "0") as [->|_]; [congruence|].
      rewrite Hv. reflexivity.
Qed.

(** A zero followed by a digit is where JSON stops and parseFloat goes on. *)
Lemma leading_zero_is_not_json d rest :
  is_digit d = true →
  Json.parse (String "0" (String d rest))
  = Throw (SyntaxError "Unexpected non-whitespace character after JSON").
Proof.
  intros Hd.
  destruct (digit_is_no_token d Hd)
    as (Hws & Hb & Hk & Hq & Ht & Hf & Hn & Hm & Hp & Hdot & He & HE & Hw & HI).
  unfold Json.parse, Json.parse_with, Json.fuel_for.
  replace (2 * String.length (String "0" (String d rest)) + 1)
    with (S (2 * String.length (String "0" (String d rest)))) by lia.
  cbn [Json.parse_value Json.skip_ws Json.is_ws strip_prefix].
  change (Json.is_ws "0") with false. cbv iota.
  change (Ascii.eqb "0" "{") with false. change (Ascii.eqb "0" "[") with false.
  change (Ascii.eqb "0" Json.dquote) with false.
  change (Ascii.eqb "t" "0") with false. change (Ascii.eqb "f" "0") with false.
  change (Ascii.eqb "n" "0") with false. cbv iota.
  unfold Json.read_number.
  change (Ascii.eqb "0" "-") with false. cbv iota.
  change (negb (is_digit "0")) with false. change (Ascii.eqb "0" "0") with true.
  cbv iota. rewrite Hdot, He, HE. cbn [orb]. cbv iota.
  cbn [Json.skip_ws]. rewrite Hws. reflexivity.
Qed.

End IntegerFacts.

(** X11. On a plain integer (digits only, no leading zero) [getObject] and
    [getNumber] return the same number, whatever their defaults. *)
Theorem getObject_getNumber_agree_on_integers this (process_env : gmap string string)
    key d d' s :
  found this process_env key = Some s → is_plain_integer s = true →
  getObject this process_env key d = getNumber this process_env key d'
  ∧ ∃ m, getNumber this process_env key d' = ret (VNum (Finite false m 0)).
Proof.
  intros H Hs. rewrite getObject_eq, getNumber_eq, H.
  destruct (IntegerFacts.plain_integer_reads s Hs) as (m & -> & ->).
  split; [reflexivity|eauto].
Qed.

Lemma getObject_getNumber_agree_on_integers_witness :
  getObject {| env := "test" |} {[ "TEST_PORT" := "8080" ]} "port" VNull
  = getNumber {| env := "test" |} {[ "TEST_PORT" := "8080" ]} "port" VUndefined.
Proof.
  apply (getObject_getNumber_agree_on_integers {| env := "test" |}
           {[ "TEST_PORT" := "8080" ]} "port" VNull VUndefined "8080"); reflexivity.
Defined.

(** X12. A found value that starts with a zero followed by a digit is not
    valid JSON: [getObject] reports the error and returns its default,
    while [getNumber] still reads a number from the same value. *)
Theorem leading_zero_splits_getObject_and_getNumber this
    (process_env : gmap string string) key d digit rest :
  found this process_env key = Some (String "0" (String digit rest)) →
  Str.is_digit digit = true →
  outcome (getObject this process_env key d) = Normal d
  ∧ length (reports (getObject this process_env key d)) = 1
  ∧ getNumber this process_env key d
    = ret (VNum (Float.parseFloat (String "0" (String digit rest)))).
Proof.
  intros H Hd. rewrite getObject_eq, getNumber_eq, H.
  rewrite (IntegerFacts.leading_zero_is_not_json digit rest Hd).
  repeat split.
Qed.

Lemma leading_zero_splits_getObject_and_getNumber_witness :
  outcome (getObject {| env := "test" |} {[ "TEST_ZIP" := "0123" ]} "zip" VNull) = Normal VNull
  ∧ getNumber {| env := "test" |} {[ "TEST_ZIP" := "0123" ]} "zip" VNull
    = ret (VNum (number_of_Z 123)).
Proof.
  destruct (leading_zero_splits_getObject_and_getNumber {| env := "test" |}
              {[ "TEST_ZIP" := "0123" ]} "zip" VNull "1" "23") as (Ho & _ & Hn).
  - reflexivity.
  - reflexivity.
  - split; [exact Ho | exact Hn].
Defined.

(** ** Properties of the loader together with the accessor *)

Lemma load_env dotenv_config cwd (process_env : gmap string string) :
  loaded_env (load dotenv_config cwd process_env)
  = snd (dotenv_config (envFile cwd process_env) process_env).
Proof.
  unfold load. destruct (dotenv_config _ _) as [[u|err] process_env']; reflexivity.
Qed.

(** The dotenv of the spec keeps every variable that is already set. *)
Lemma dotenv_from_keeps files cwd (process_env : gmap string string) k v :
  process_env !! k = Some v →
  loaded_env (load (dotenv_from files) cwd process_env) !! k = Some v.
Proof.
  intros H. rewrite load_env. unfold dotenv_from.
  destruct (files !! envFile cwd process_env); simpl; [|exact H].
  apply lookup_union_Some_l, H.
Qed.

Lemma module_exports_same (process_env process_env' : gmap string string) :
  process_env' !! "NODE_ENV" = process_env !! "NODE_ENV" →
  module_exports process_env' = module_exports process_env.
Proof. unfold module_exports, constructor. intros ->. reflexivity. Qed.

(** X14. When [NODE_ENV] is set before the module loads and loading keeps
    the variables that are already set, the settings file that is loaded
    and the exported accessor use one and the same environment name. *)
Theorem settings_file_matches_namespace dotenv_config cwd
    (process_env : gmap string string) :
  (∀ k v, process_env !! k = Some v →
          loaded_env (load dotenv_config cwd process_env) !! k = Some v) →
  is_Some (process_env !! "NODE_ENV") →
  envFile cwd process_env
  = cwd +:+ "/.env." +:+ env (snd (module_init dotenv_config cwd process_env)).
Proof.
  intros Hkeep [n Hn]. unfold module_init. cbn [snd].
  rewrite (module_exports_same process_env); [reflexivity|].
  rewrite (Hkeep _ _ Hn), Hn. reflexivity.
Qed.

Lemma settings_file_matches_namespace_witness :
  envFile "/app" {[ "NODE_ENV" := "production" ]}
  = "/app" +:+ "/.env."
    +:+ env (snd (module_init
                    (dotenv_from {[ "/app/.env.production" := {[ "NODE_ENV" := "test" ]} ]})
                    "/app" {[ "NODE_ENV" := "production" ]})).
Proof.
  apply (settings_file_matches_namespace
           (dotenv_from {[ "/app/.env.production" := {[ "NODE_ENV" := "test" ]} ]})
           "/app" {[ "NODE_ENV" := "production" ]}).
  - apply dotenv_from_keeps.
  - exists "production". reflexivity.
Defined.

(** X15. When [NODE_ENV] is not set before the module loads and loading
    sets it to a non-empty name, the file that was loaded is the one of
    "development" while the exported accessor namespaces its keys with the
    name that the file brought in. *)
Theorem settings_file_can_rename_namespace dotenv_config cwd
    (process_env : gmap string string) n :
  process_env !! "NODE_ENV" = None →
  loaded_env (load dotenv_config cwd process_env) !! "NODE_ENV" = Some n →
  n ≠ EmptyString →
  envFile cwd process_env = cwd +:+ "/.env.development"
  ∧ env (snd (module_init dotenv_config cwd process_env)) = n
  ∧ ∀ key, envKey (snd (module_init dotenv_config cwd process_env)) key
           = Str.toUpperCase n +:+ "_" +:+ Str.toUpperCase key.
Proof.
  intros Hunset Hset Hn. unfold envFile, module_init. rewrite Hunset.
  assert (env (module_exports (loaded_env (load dotenv_config cwd process_env))) = n) as He.
  { unfold module_exports, constructor. cbn [env or_string]. rewrite Hset.
    destruct n; [congruence|reflexivity]. }
  cbn [snd]. conjs; [reflexivity|exact He|].
  intros key. unfold envKey. rewrite He. reflexivity.
Qed.

Lemma settings_file_can_rename_namespace_witness :
  let dotenv :=
    dotenv_from {[ "/app/.env.development" :=
                     {[ "NODE_ENV" := "production"; "DEVELOPMENT_PORT" := "3000" ]} ]} in
  let started := module_init dotenv "/app" ∅ in
  env (snd started) = "production"
  ∧ getNumber (snd started) (loaded_env (fst started)) "PORT" VNull = ret VNull.
Proof.
  cbv zeta. split.
  - apply (settings_file_can_rename_namespace
             (dotenv_from {[ "/app/.env.development" :=
                               {[ "NODE_ENV" := "production";
                                  "DEVELOPMENT_PORT" := "3000" ]} ]})
             "/app" ∅ "production").
    + reflexivity.
    + vm_compute. reflexivity.
    + discriminate.
  - vm_compute. reflexivity.
Defined.

(** X16. A variable that is already set when the module loads, even to the
    empty string, hides what the settings file says about it: if loading
    keeps the variables that are already set and [NODE_ENV] is among them,
    every operation for that key returns after loading what it would have
    returned without loading. *)
Theorem variables_already_set_win dotenv_config cwd (process_env : gmap string string)
    key separator d options :
  (∀ k v, process_env !! k = Some v →
          loaded_env (load dotenv_config cwd process_env) !! k = Some v) →
  is_Some (process_env !! "NODE_ENV") →
  is_Some (process_env !! envKey (module_exports process_env) key) →
  readings (snd (module_init dotenv_config cwd process_env))
           (loaded_env (fst (module_init dotenv_config cwd process_env)))
           key separator d options
  = readings (module_exports process_env) process_env key separator d options.
Proof.
  intros Hkeep [n Hn] [v Hv]. unfold module_init. cbn [fst snd].
  rewrite (module_exports_same process_env) by (rewrite (Hkeep _ _ Hn), Hn; reflexivity).
  apply readings_found. unfold found. rewrite (Hkeep _ _ Hv), Hv. reflexivity.
Qed.

Lemma variables_already_set_win_witness :
  let dotenv :=
    dotenv_from {[ "/app/.env.test" := {[ "TEST_PORT" := "3000"; "TEST_HOST" := "h" ]} ]} in
  let table : gmap string string := {[ "NODE_ENV" := "test"; "TEST_PORT" := EmptyString ]} in
  readings (snd (module_init dotenv "/app" table))
           (loaded_env (fst (module_init dotenv "/app" table))) "port" None VNull None
  = readings (module_exports table) table "port" None VNull None.
Proof.
  cbv zeta.
  apply (variables_already_set_win
           (dotenv_from {[ "/app/.env.test" :=
                             {[ "TEST_PORT" := "3000"; "TEST_HOST" := "h" ]} ]})
           "/app" {[ "NODE_ENV" := "test"; "TEST_PORT" := EmptyString ]}
           "port" None VNull None).
  - apply dotenv_from_keeps.
  - exists "test". reflexivity.
  - exists EmptyString. reflexivity.
Defined.
